(** * Admission and resilience control plane of the Tempo API proxy

    A shallow embedding of the retry handler ([retry.ts]), the session
    manager ([session.ts]), the sliding-window rate limiter and the FIFO
    request queue, together with the properties the specification states
    about them.

    Conventions.  A JavaScript [number] that holds a count, a status code or
    a duration in milliseconds is an integer of [Z]; the [attempt] argument of
    [calculateBackoff] is a rational of [Q], because the code applies
    [Math.floor] to it.  Integer arithmetic is exact in [Z]; where the
    doubles of the code can leave it (the product of [calculateBackoff]
    beyond the largest double), the definition says for which arguments the
    two agree and the statements about its values are made for those.
    Effects (the module-level session cache, [fetch],
    [setTimeout] and [Date.now]) are threaded through an explicit world with a
    small state-and-exception monad. *)

From Stdlib Require Import ZArith QArith Qround List Sorted Ascii String Bool Lia.
From stdpp Require Import base gmap strings list.
Import ListNotations.

Local Open Scope Z_scope.

(* ===================================================================== *)
(** * The platform: responses, errors, and the effect monad *)
(* ===================================================================== *)

(** [ClerkSession] of session.ts. *)
Module Clerk.

Record ClerkSession := {
  id : string;
  status : string;
  expire_at : Z;
  last_active_at : Z
}.

End Clerk.

(** [SessionCache] of session.ts. *)
Record SessionCache := {
  sessionId : string;
  expiresAt : Z
}.

(** What [await response.json()] followed by [data.response?.sessions || []]
    and the traversal of the sessions gives: either the array of sessions, or
    an exception (the body is not JSON, or the parsed value cannot be
    traversed that way). *)
Inductive Body :=
| Unusable
| Sessions (sessions : list Clerk.ClerkSession).

Record Response := {
  status : Z;
  statusText : string;
  body : Body
}.

(** [response.ok]: the status is in the range 200-299. *)
Definition ok (r : Response) : bool :=
  (200 <=? status r) && (status r <=? 299).

(** A call of [fetch] either resolves to a response or rejects. *)
Inductive FetchOutcome :=
| Resolves (r : Response)
| Rejects (message : string).

(** The JavaScript errors the two modules raise, by the template of their
    message. *)
Inductive Error :=
| NetworkError (message : string)
| UpstreamError (retries : Z) (lastError : Error)
    (* `Upstream error after ${retries} retries: ${lastError.message}` *)
| UpstreamHttpError (retries : Z) (lastStatus : Z)
    (* `Upstream error after ${retries} retries: HTTP ${lastStatus}` *)
| ClerkApiError (st : Z) (text : string)
| BodyError
| NoActiveSession
| SessionIdError.

(** The observable actions of a run, in order. *)
Inductive Event :=
| EvFetch
| EvSleep (ms : Z).

(** The world a run threads: what the upstream answers to the n-th [fetch],
    what the n-th reading of [Date.now()] gives, how many of each were made,
    the events so far, and the module-level [cachedSession] of session.ts. *)
Record World := {
  upstream : nat -> FetchOutcome;
  clock : nat -> Z;
  calls : nat;
  ticks : nat;
  trace : list Event;
  cachedSession : option SessionCache
}.

Inductive outcome (A : Type) :=
| Returned (a : A)
| Thrown (e : Error)
| OutOfFuel.
Arguments Returned {A} a.
Arguments Thrown {A} e.
Arguments OutOfFuel {A}.

Definition Eff (A : Type) : Type := World -> outcome A * World.

Definition ret {A} (a : A) : Eff A := fun w => (Returned a, w).

Definition throw {A} (e : Error) : Eff A := fun w => (Thrown e, w).

Definition bind {A B} (c : Eff A) (k : A -> Eff B) : Eff B :=
  fun w =>
    match c w with
    | (Returned a, w') => k a w'
    | (Thrown e, w') => (Thrown e, w')
    | (OutOfFuel, w') => (OutOfFuel, w')
    end.

(** [try { c } catch (error) { handler error }]. *)
Definition try_catch {A} (c : Eff A) (handler : Error -> Eff A) : Eff A :=
  fun w =>
    match c w with
    | (Thrown e, w') => handler e w'
    | r => r
    end.

Notation "x <- c1 ;; c2" := (bind c1 (fun x => c2))
  (at level 100, c1 at next level, right associativity).
Notation "c1 ;;; c2" := (bind c1 (fun _ => c2))
  (at level 100, right associativity).

(** The world after an event, after a call of [fetch], after a reading of
    the clock, and after an assignment to [cachedSession]. *)
Definition record_event (e : Event) (w : World) : World :=
  {| upstream := upstream w; clock := clock w; calls := calls w;
     ticks := ticks w; trace := trace w ++ [e];
     cachedSession := cachedSession w |}.

Definition after_fetch (w : World) : World :=
  {| upstream := upstream w; clock := clock w; calls := S (calls w);
     ticks := ticks w; trace := trace w ++ [EvFetch];
     cachedSession := cachedSession w |}.

Definition after_tick (w : World) : World :=
  {| upstream := upstream w; clock := clock w; calls := calls w;
     ticks := S (ticks w); trace := trace w;
     cachedSession := cachedSession w |}.

Definition with_cachedSession (c : option SessionCache) (w : World) : World :=
  {| upstream := upstream w; clock := clock w; calls := calls w;
     ticks := ticks w; trace := trace w; cachedSession := c |}.

(** [await fetch(url, options)]. *)
Definition fetch : Eff Response :=
  fun w =>
    match upstream w (calls w) with
    | Resolves r => (Returned r, after_fetch w)
    | Rejects m => (Thrown (NetworkError m), after_fetch w)
    end.

(** [await new Promise(resolve => setTimeout(resolve, ms))]. *)
Definition sleep (ms : Z) : Eff unit :=
  fun w => (Returned tt, record_event (EvSleep ms) w).

(** [Date.now()]. *)
Definition Date_now : Eff Z :=
  fun w => (Returned (clock w (ticks w)), after_tick w).

Definition read_cachedSession : Eff (option SessionCache) :=
  fun w => (Returned (cachedSession w), w).

Definition write_cachedSession (c : option SessionCache) : Eff unit :=
  fun w => (Returned tt, with_cachedSession c w).

(** An answer of the upstream that both modules count as a failed attempt:
    a network error or a 5xx response. *)
Definition failing (o : FetchOutcome) : Prop :=
  match o with
  | Rejects _ => True
  | Resolves r => 500 <= status r < 600
  end.

(** A fresh world whose upstream rejects every call with a network error and
    whose clock reads [1000 * n] at its n-th reading. *)
Definition silentWorld : World :=
  {| upstream := fun _ => Rejects "connection refused";
     clock := fun n => 1000 * Z.of_nat n;
     calls := 0; ticks := 0; trace := []; cachedSession := None |}.

(** The world after the three failed attempts of the session fetch, and
    after the four of [fetchWithRetry] under the same configuration. *)
Definition afterSessionAttempts (w : World) : World :=
  after_fetch (record_event (EvSleep 2000)
    (after_fetch (record_event (EvSleep 1000) (after_fetch w)))).

Definition afterRetryAttempts (w : World) : World :=
  after_fetch (record_event (EvSleep 4000) (afterSessionAttempts w)).

(** [silentWorld] with an entry in the cache that expired before the clock's
    first reading. *)
Definition staleWorld : World :=
  with_cachedSession (Some {| sessionId := "sess_old"; expiresAt := -1 |})
    silentWorld.

(** [for (let i = start; cond(i); i++) { body }], the locals of the
    enclosing function in [s].  The body answers [inl v] for [return v] and
    [inr s'] to go on with the locals [s']; the loop answers [inr s] when it
    falls through.  The guard is tested before the fuel. *)
Fixpoint forLoop {S R : Type} (fuel : nat) (cond : Z -> bool)
    (body : Z -> S -> Eff (R + S)) (i : Z) (s : S) : Eff (R + S) :=
  if cond i then
    match fuel with
    | O => fun w => (OutOfFuel, w)
    | Datatypes.S fuel' =>
        r <- body i s ;;
        match r with
        | inl v => ret (inl v)
        | inr s' => forLoop fuel' cond body (i + 1) s'
        end
    end
  else ret (inr s).

(* ===================================================================== *)
(** * retry.ts *)
(* ===================================================================== *)

Module Retry.

Definition DEFAULT_BASE_DELAY : Z := 1000.
Definition DEFAULT_MAX_DELAY : Z := 10000.
Definition DEFAULT_MAX_RETRIES : Z := 3.

(** [Math.max(0, Math.floor(attempt))]. *)
Definition safeAttempt (attempt : Q) : Z := Z.max 0 (Qfloor attempt).

(** [calculateBackoff(attempt, baseDelay, maxDelay)]:
    [Math.min(baseDelay * Math.pow(2, safeAttempt), maxDelay)].

    The product is taken in [Z]; in the code it is a product of doubles, and
    [Math.pow(2, safeAttempt)] is [Infinity] from [safeAttempt = 1024] on.
    For [baseDelay > 0] the two agree at every attempt: a product by a power
    of two is exact until it overflows to [Infinity], and [Math.min] then
    answers [maxDelay], as [Z.min] does for a product above every double.
    For [baseDelay <= 0] they agree only below the overflow: there the code
    gives [NaN] (for [0 * Infinity]) or [-Infinity], which no integer
    stands for.  The statements about the value of the delay therefore
    assume [0 < baseDelay]; the retry loop only passes the delay on to
    [sleep]. *)
Definition calculateBackoff (attempt : Q) (baseDelay maxDelay : Z) : Z :=
  let delay := baseDelay * 2 ^ safeAttempt attempt in
  Z.min delay maxDelay.

(** [shouldRetry(status, attempt, maxRetries)]. *)
Definition shouldRetry (status attempt maxRetries : Z) : bool :=
  if attempt >=? maxRetries then false
  else (status =? 0) || ((status >=? 500) && (status <? 600)).

(** The locals [lastError] and [lastStatus] of [fetchWithRetry]. *)
Definition Locals : Type := option Error * Z.

(** One iteration of the loop of [fetchWithRetry]: the [try] block and its
    [catch]. *)
Definition attemptOnce (maxRetries baseDelay maxDelay : Z)
    (attempt : Z) (s : Locals) : Eff (Response + Locals) :=
  let (lastError, lastStatus) := s in
  try_catch
    ((if attempt >? 0
      then sleep (calculateBackoff (inject_Z (attempt - 1)) baseDelay maxDelay)
      else ret tt) ;;;
     response <- fetch ;;
     let lastStatus := status response in
     if ok response || ((status response >=? 400) && (status response <? 500))
     then ret (inl response)
     else if negb (shouldRetry (status response) attempt maxRetries)
     then ret (inl response)
     else ret (inr (lastError, lastStatus)))
    (fun error =>
       let lastError := Some error in
       let lastStatus := 0 in
       if negb (shouldRetry 0 attempt maxRetries)
       then throw (UpstreamError (attempt + 1) error)
       else ret (inr (lastError, lastStatus))).

(** [fetchWithRetry(url, options, maxRetries, baseDelay, maxDelay)]. *)
Definition fetchWithRetry (maxRetries baseDelay maxDelay : Z) : Eff Response :=
  r <- forLoop (Z.to_nat (maxRetries + 1)) (fun attempt => attempt <=? maxRetries)
         (attemptOnce maxRetries baseDelay maxDelay) 0 (None, 0) ;;
  match r with
  | inl response => ret response
  | inr (Some lastError, _) => throw (UpstreamError (maxRetries + 1) lastError)
  | inr (None, lastStatus) => throw (UpstreamHttpError (maxRetries + 1) lastStatus)
  end.

(** What the events of [m] consecutive attempts are: attempt 0 is a bare
    [fetch]; attempt [n >= 1], the n-th retry, is a sleep of
    [calculateBackoff (n - 1)] followed by a [fetch]. *)
Definition attemptEvents (baseDelay maxDelay : Z) (n : nat) : list Event :=
  match n with
  | O => [EvFetch]
  | Datatypes.S p =>
      [EvSleep (calculateBackoff (inject_Z (Z.of_nat p)) baseDelay maxDelay);
       EvFetch]
  end.

Definition attemptsTrace (baseDelay maxDelay : Z) (first m : nat) : list Event :=
  flat_map (attemptEvents baseDelay maxDelay) (seq first m).

End Retry.

(* ===================================================================== *)
(** * session.ts: the session manager *)
(* ===================================================================== *)

Module Session.

Definition SESSION_CACHE_DURATION_MS : Z := 5 * 60 * 1000.

Record RetryConfig := {
  maxRetries : Z;
  baseDelayMs : Z;
  maxDelayMs : Z
}.

Definition RETRY_CONFIG : RetryConfig :=
  {| maxRetries := 3; baseDelayMs := 1000; maxDelayMs := 10000 |}.

(** [calculateBackoff(attempt)] of session.ts, for the attempts [>= 0] the
    module calls it with. *)
Definition calculateBackoff (attempt : Z) : Z :=
  let delay := baseDelayMs RETRY_CONFIG * 2 ^ attempt in
  Z.min delay (maxDelayMs RETRY_CONFIG).

(** The [try] block of [fetchSessionIdFromClerk]. *)
Definition requestActiveSession : Eff string :=
  response <- fetch ;;
  if negb (ok response)
  then throw (ClerkApiError (status response) (statusText response))
  else
    match body response with
    | Unusable => throw BodyError
    | Sessions sessions =>
        match List.find (fun s => String.eqb (Clerk.status s) "active") sessions with
        | None => throw NoActiveSession
        | Some activeSession => ret (Clerk.id activeSession)
        end
    end.

(** One iteration of the loop of [fetchSessionIdFromClerk]; the local is
    [lastError]. *)
Definition attemptOnce (attempt : Z) (lastError : option Error)
    : Eff (string + option Error) :=
  try_catch
    (sid <- requestActiveSession ;; ret (inl sid))
    (fun error =>
       let lastError := Some error in
       (if attempt <? maxRetries RETRY_CONFIG - 1
        then sleep (calculateBackoff attempt)
        else ret tt) ;;;
       ret (inr lastError)).

(** [fetchSessionIdFromClerk(clientToken)]. *)
Definition fetchSessionIdFromClerk (clientToken : string) : Eff string :=
  r <- forLoop (Z.to_nat (maxRetries RETRY_CONFIG))
         (fun attempt => attempt <? maxRetries RETRY_CONFIG) attemptOnce 0 None ;;
  match r with
  | inl sid => ret sid
  | inr (Some lastError) => throw lastError
  | inr None => throw SessionIdError
  end.

(** The test [!forceRefresh && cachedSession && Date.now() <
    cachedSession.expiresAt] of [getSessionId]: the cached id on a hit. *)
Definition cacheLookup (forceRefresh : bool) : Eff (option string) :=
  cached <- read_cachedSession ;;
  if negb forceRefresh
  then match cached with
       | Some c =>
           now <- Date_now ;;
           ret (if now <? expiresAt c then Some (sessionId c) else None)
       | None => ret None
       end
  else ret None.

(** [getSessionId(clientToken, forceRefresh)]. *)
Definition getSessionId (clientToken : string) (forceRefresh : bool)
    : Eff string :=
  hit <- cacheLookup forceRefresh ;;
  match hit with
  | Some sid => ret sid
  | None =>
      sid <- fetchSessionIdFromClerk clientToken ;;
      now <- Date_now ;;
      write_cachedSession
        (Some {| sessionId := sid;
                 expiresAt := now + SESSION_CACHE_DURATION_MS |}) ;;;
      ret sid
  end.

(** [clearSessionCache()]. *)
Definition clearSessionCache : Eff unit := write_cachedSession None.

End Session.

(* ===================================================================== *)
(** * session.ts: parseClientToken *)
(* ===================================================================== *)

Module ClientToken.

#[local] Set Warnings "-register-all".

(** What [JSON.parse] returns.  An object is the list of its own properties;
    a number is the rational it denotes (no NaN comes out of [JSON.parse]). *)
Inductive json :=
| JNull
| JBool (b : bool)
| JNumber (n : Q)
| JString (s : string)
| JArray (items : list json)
| JObject (fields : list (string * json)).

(** The JavaScript values the function meets: [undefined], the values of
    JSON, and the one function a property read can reach
    ([String.prototype.sub]). *)
Inductive value :=
| Undefined
| Json (j : json)
| StringPrototypeSub.

(** [ClientTokenPayload]; at run time the two fields hold whatever the
    payload holds. *)
Record ClientTokenPayload := {
  userId : value;
  clientId : value
}.

Definition emptyPayload : ClientTokenPayload :=
  {| userId := Json (JString ""); clientId := Json (JString "") |}.

(** A computation that may throw. *)
Inductive attempt (A : Type) :=
| Done (a : A)
| Raise.
Arguments Done {A} a.
Arguments Raise {A}.

Definition andThen {A B} (c : attempt A) (k : A -> attempt B) : attempt B :=
  match c with
  | Done a => k a
  | Raise => Raise
  end.

(** [try { c } catch { handler }]. *)
Definition tryCatch {A} (c : attempt A) (handler : attempt A) : attempt A :=
  match c with
  | Done a => Done a
  | Raise => handler
  end.

(** Truthiness ([!v], [a || b]). *)
Definition truthy (v : value) : bool :=
  match v with
  | Undefined => false
  | Json JNull => false
  | Json (JBool b) => b
  | Json (JNumber n) => negb (Qeq_bool n 0)
  | Json (JString s) => negb (String.eqb s "")
  | Json (JArray _) => true
  | Json (JObject _) => true
  | StringPrototypeSub => true
  end.

(** [a || b]. *)
Definition or_else (a b : value) : value := if truthy a then a else b.

(** [typeof v === "string"]. *)
Definition is_string (v : value) : bool :=
  match v with
  | Json (JString _) => true
  | _ => false
  end.

Fixpoint lookup_field (name : string) (fields : list (string * json)) : value :=
  match fields with
  | [] => Undefined
  | (k, v) :: rest => if String.eqb k name then Json v else lookup_field name rest
  end.

(** [payload.name], for the five names the function reads ([sub],
    [user_id], [client_id], [azp], [aud]): a TypeError on [null]; an own
    property of an object; [String.prototype.sub] for [sub] on a string;
    [undefined] otherwise. *)
Definition get (payload : json) (name : string) : attempt value :=
  match payload with
  | JNull => Raise
  | JObject fields => Done (lookup_field name fields)
  | JString _ => Done (if String.eqb name "sub" then StringPrototypeSub else Undefined)
  | JBool _ | JNumber _ | JArray _ => Done Undefined
  end.

(** [s.split(".")]. *)
Fixpoint split_dot (s : string) : list string :=
  match s with
  | EmptyString => [EmptyString]
  | String c rest =>
      if Ascii.eqb c "."%char then EmptyString :: split_dot rest
      else match split_dot rest with
           | [] => [String c EmptyString]
           | part :: parts => String c part :: parts
           end
  end.

(** [s.replace(/-/g, "+").replace(/_/g, "/")]. *)
Fixpoint toBase64 (s : string) : string :=
  match s with
  | EmptyString => EmptyString
  | String c rest =>
      String (if Ascii.eqb c "-"%char then "+"%char
              else if Ascii.eqb c "_"%char then "/"%char else c)
             (toBase64 rest)
  end.

(** ["=".repeat(n)]. *)
Fixpoint repeat_eq (n : nat) : string :=
  match n with
  | O => EmptyString
  | Datatypes.S m => String "="%char (repeat_eq m)
  end.

Definition pad (base64 : string) : string :=
  (base64 ++ repeat_eq (Z.to_nat ((4 - Z.of_nat (String.length base64) mod 4) mod 4)))%string.

Section Builtins.

(** The two built-ins of the platform: [atob] and [JSON.parse], [None] when
    they throw. *)
Variable atob : string -> option string.
Variable JSON_parse : string -> option json.

Definition builtin {A B} (f : A -> option B) (a : A) : attempt B :=
  match f a with
  | Some b => Done b
  | None => Raise
  end.

(** The payload part decoded: [JSON.parse(atob(padded))]. *)
Definition decodePayload (payloadBase64 : string) : attempt json :=
  let base64 := toBase64 payloadBase64 in
  let padded := pad base64 in
  andThen (builtin atob padded) (fun payloadJson =>
  builtin JSON_parse payloadJson).

(** The [try] block of [parseClientToken]. *)
Definition parseClientToken_try (token : value) : attempt ClientTokenPayload :=
  if negb (truthy token) || negb (is_string token) then Done emptyPayload
  else
    match token with
    | Json (JString tok) =>
        match split_dot tok with
        | [_; payloadBase64; _] =>
            andThen (decodePayload payloadBase64) (fun payload =>
            andThen (get payload "sub") (fun sub =>
            andThen (if truthy sub then Done sub else get payload "user_id") (fun uid =>
            let userId := or_else uid (Json (JString "")) in
            andThen (get payload "client_id") (fun cid =>
            andThen (if truthy cid then Done cid else get payload "azp") (fun azp =>
            andThen (if truthy azp then Done azp else get payload "aud") (fun aud =>
            let clientId := or_else aud (Json (JString "")) in
            Done {| userId := userId; clientId := clientId |}))))))
        | _ => Done emptyPayload
        end
    | _ => Done emptyPayload
    end.

(** [parseClientToken(token)]. *)
Definition parseClientToken (token : value) : attempt ClientTokenPayload :=
  tryCatch (parseClientToken_try token) (Done emptyPayload).

(** The inputs the function has nothing to extract from: not a string, the
    empty string, not three dot-separated parts, or a payload part that
    [atob] or [JSON.parse] rejects. *)
Definition malformed (token : value) : Prop :=
  match token with
  | Json (JString tok) =>
      tok = ""%string
      \/ length (split_dot tok) <> 3%nat
      \/ exists h p sg, split_dot tok = [h; p; sg] /\ decodePayload p = Raise
  | _ => True
  end.

End Builtins.

End ClientToken.

(* ===================================================================== *)
(** * The sliding-window rate limiter *)
(* ===================================================================== *)

Module RateLimit.

Record RateLimitConfig := {
  enabled : bool;
  windowMs : Z;
  maxRequests : Z
}.

Record RateLimitResult := {
  allowed : bool;
  retryAfter : option Z;
  remaining : Z
}.

Record RequestRecord := { timestamp : Z }.

(** The fields of the class [RateLimiter] (its cleanup timer apart). *)
Record RateLimiter := {
  requests : gmap string (list RequestRecord);
  config : RateLimitConfig
}.

(** A method: takes [this], answers a value and [this] as it leaves it. *)
Definition Method (A : Type) : Type := RateLimiter -> A * RateLimiter.

(** [this.requests.get(clientId) || []]. *)
Definition requests_get (clientId : string) : Method (list RequestRecord) :=
  fun this => (default [] (requests this !! clientId), this).

(** [this.requests.set(clientId, l)]. *)
Definition requests_set (clientId : string) (l : list RequestRecord) : Method unit :=
  fun this =>
    (tt, {| requests := <[clientId := l]> (requests this); config := config this |}).

(** [l.filter(r => r.timestamp > windowStart)]. *)
Definition inWindow (windowStart : Z) (l : list RequestRecord) : list RequestRecord :=
  List.filter (fun r => timestamp r >? windowStart) l.

(** [Math.ceil(x / 1000)] for an integer [x]. *)
Definition ceilSeconds (x : Z) : Z := - ((- x) / 1000).

(** [checkLimit(clientId)], [now] being what [Date.now()] gives. *)
Definition checkLimit (now : Z) (clientId : string) : Method RateLimitResult :=
  fun this =>
    if negb (enabled (config this))
    then ({| allowed := true; retryAfter := None;
             remaining := maxRequests (config this) |}, this)
    else
      let windowStart := now - windowMs (config this) in
      let (clientRequests, this) := requests_get clientId this in
      let clientRequests := inWindow windowStart clientRequests in
      let requestCount := Z.of_nat (length clientRequests) in
      let remaining := Z.max 0 (maxRequests (config this) - requestCount) in
      if requestCount >=? maxRequests (config this)
      then
        let retryAfterMs :=
          match clientRequests with
          | oldestRequest :: _ =>
              (timestamp oldestRequest + windowMs (config this)) - now
          | [] => windowMs (config this)
          end in
        let retryAfter := ceilSeconds retryAfterMs in
        ({| allowed := false; retryAfter := Some (Z.max 1 retryAfter);
            remaining := 0 |}, this)
      else ({| allowed := true; retryAfter := None; remaining := remaining |}, this).

(** [recordRequest(clientId)]. *)
Definition recordRequest (now : Z) (clientId : string) : Method unit :=
  fun this =>
    if negb (enabled (config this)) then (tt, this)
    else
      let windowStart := now - windowMs (config this) in
      let (clientRequests, this) := requests_get clientId this in
      let clientRequests := inWindow windowStart clientRequests in
      let clientRequests := clientRequests ++ [{| timestamp := now |}] in
      requests_set clientId clientRequests this.

(** [getRequestCount(clientId)]. *)
Definition getRequestCount (now : Z) (clientId : string) : Method Z :=
  fun this =>
    if negb (enabled (config this)) then (0, this)
    else
      let windowStart := now - windowMs (config this) in
      let (clientRequests, this) := requests_get clientId this in
      (Z.of_nat (length (inWindow windowStart clientRequests)), this).

(** [cleanup()]: every client keeps its requests of the window, and a client
    left with none is deleted. *)
Definition cleanup (now : Z) : Method unit :=
  fun this =>
    let windowStart := now - windowMs (config this) in
    (tt, {| requests :=
              omap (fun l => match inWindow windowStart l with
                             | [] => None
                             | validRequests => Some validRequests
                             end) (requests this);
            config := config this |}).

(** [recordRequest(clientId)] called once at each of the instants [times],
    in that order. *)
Definition recordAll (times : list Z) (clientId : string) (this : RateLimiter)
    : RateLimiter :=
  fold_left (fun this now => snd (recordRequest now clientId this)) times this.

(** An enabled limiter with no client yet: 3 requests per minute. *)
Definition limiter3 : RateLimiter :=
  {| requests := ∅;
     config := {| enabled := true; windowMs := 60000; maxRequests := 3 |} |}.

(** The oldest of a non-empty list of instants. *)
Definition oldest (first : Z) (others : list Z) : Z :=
  fold_right Z.min first others.

End RateLimit.

(* ===================================================================== *)
(** * The FIFO request queue *)
(* ===================================================================== *)

Module Queue.

Record QueueConfig := {
  maxConcurrent : Z;
  maxQueueSize : Z
}.

Record QueueStatus := {
  pending : Z;
  active : Z
}.

Section Tasks.

(** The work functions callers hand to [enqueue]. *)
Context {Task : Type}.

(** [QueuedTask]: the work function, standing also for the [resolve] and
    [reject] of the promise its caller holds, and the instant it was queued. *)
Record QueuedTask := {
  task : Task;
  enqueuedAt : Z
}.

(** The fields of the class [RequestQueue]; [processedOrder], which the
    queue only appends to for its tests, is left out. *)
Record RequestQueue := {
  queue : list QueuedTask;
  activeCount : Z;
  config : QueueConfig
}.

Definition create (cfg : QueueConfig) : RequestQueue :=
  {| queue := []; activeCount := 0; config := cfg |}.

(** What a call makes visible: an enqueue refused with [QueueFullError], a
    work function invoked at once by [executeTask], a task appended to
    [queue], and a task shifted from [queue] and invoked by [processNext]. *)
Inductive Notice :=
| Refused (t : Task)
| RunNow (t : Task)
| Pushed (t : Task)
| Promoted (t : Task).

(** [enqueue(task)], up to the point where it hands control back: it throws,
    or enters [executeTask] (which increments [activeCount] and calls
    [task()]), or pushes a [QueuedTask]. *)
Definition enqueue (t : Task) (now : Z) (this : RequestQueue)
    : Notice * RequestQueue :=
  if Z.of_nat (length (queue this)) >=? maxQueueSize (config this)
  then (Refused t, this)
  else if activeCount this <? maxConcurrent (config this)
  then (RunNow t,
        {| queue := queue this; activeCount := activeCount this + 1;
           config := config this |})
  else (Pushed t,
        {| queue := queue this ++ [{| task := t; enqueuedAt := now |}];
           activeCount := activeCount this; config := config this |}).

(** [processNext()]. *)
Definition processNext (this : RequestQueue) : list Notice * RequestQueue :=
  if (Z.of_nat (length (queue this)) =? 0)
     || (activeCount this >=? maxConcurrent (config this))
  then ([], this)
  else
    match queue this with
    | next :: rest =>
        ([Promoted (task next)],
         {| queue := rest; activeCount := activeCount this + 1;
            config := config this |})
    | [] => ([], this)
    end.

(** The [finally] of a running task, whether it was started by
    [executeTask] or by [processNext], and whether it succeeded or failed:
    [this.activeCount--; this.processNext()]. *)
Definition settle (this : RequestQueue) : list Notice * RequestQueue :=
  processNext {| queue := queue this; activeCount := activeCount this - 1;
                 config := config this |}.

(** [getStatus()], [canAccept()], [hasCapacity()], [reset()]. *)
Definition getStatus (this : RequestQueue) : QueueStatus :=
  {| pending := Z.of_nat (length (queue this)); active := activeCount this |}.

Definition canAccept (this : RequestQueue) : bool :=
  Z.of_nat (length (queue this)) <? maxQueueSize (config this).

Definition hasCapacity (this : RequestQueue) : bool :=
  activeCount this <? maxConcurrent (config this).

Definition reset (this : RequestQueue) : RequestQueue :=
  {| queue := []; activeCount := 0; config := config this |}.

(** What happens to a queue, one atomic step at a time: a caller enqueues, or
    a running task settles. *)
Inductive Call :=
| Enqueue (t : Task) (now : Z)
| Settle.

Definition step (c : Call) (this : RequestQueue) : list Notice * RequestQueue :=
  match c with
  | Enqueue t now => let (n, this') := enqueue t now this in ([n], this')
  | Settle => settle this
  end.

Fixpoint run (cs : list Call) (this : RequestQueue) : list Notice * RequestQueue :=
  match cs with
  | [] => ([], this)
  | c :: cs' =>
      let (ns, this') := step c this in
      let (ns', this'') := run cs' this' in
      (ns ++ ns', this'')
  end.

(** The pending sequence, as tasks. *)
Definition pendingTasks (this : RequestQueue) : list Task := map task (queue this).

(** No slot is free while a task waits. *)
Definition saturated (this : RequestQueue) : Prop :=
  queue this = [] \/ maxConcurrent (config this) <= activeCount this.

(** Callers enqueue [jobs] (a task and the instant of its call) one after the
    other. *)
Definition enqueueAll (jobs : list (Task * Z)) : list Call :=
  map (fun j => Enqueue (fst j) (snd j)) jobs.

(** The tasks of a run, in order: those appended to [queue], those shifted
    from it, those whose work function was invoked, those accepted. *)
Definition pushedOf (ns : list Notice) : list Task :=
  flat_map (fun n => match n with Pushed t => [t] | _ => [] end) ns.

Definition promotedOf (ns : list Notice) : list Task :=
  flat_map (fun n => match n with Promoted t => [t] | _ => [] end) ns.

Definition dispatchedOf (ns : list Notice) : list Task :=
  flat_map (fun n => match n with RunNow t | Promoted t => [t] | _ => [] end) ns.

Definition acceptedOf (ns : list Notice) : list Task :=
  flat_map (fun n => match n with RunNow t | Pushed t => [t] | _ => [] end) ns.

Definition refusedOf (ns : list Notice) : list Task :=
  flat_map (fun n => match n with Refused t => [t] | _ => [] end) ns.

End Tasks.

Arguments QueuedTask : clear implicits.
Arguments RequestQueue : clear implicits.
Arguments Notice : clear implicits.
Arguments Call : clear implicits.

End Queue.

(* ===================================================================== *)
(** * Further definitions: schedules and counts used in statements *)
(* ===================================================================== *)

Module SessionSchedule.

(** The events of the session fetch when all of its attempts fail. *)
Definition fullSchedule : list Event :=
  [EvFetch; EvSleep (Session.calculateBackoff 0);
   EvFetch; EvSleep (Session.calculateBackoff 1);
   EvFetch].

(** A response the session fetch accepts, and the id it extracts from it. *)
Definition activeSessionOf (r : Response) : option string :=
  if negb (ok r) then None
  else
    match body r with
    | Unusable => None
    | Sessions sessions =>
        match List.find (fun s => String.eqb (Clerk.status s) "active") sessions with
        | None => None
        | Some activeSession => Some (Clerk.id activeSession)
        end
    end.

(** What an attempt of the session fetch makes of an answer of the upstream:
    the id it returns, or the error its [catch] receives. *)
Definition acceptedId (o : FetchOutcome) : option string :=
  match o with
  | Resolves r => activeSessionOf r
  | Rejects _ => None
  end.

Definition rejectionOf (o : FetchOutcome) : option Error :=
  match o with
  | Rejects m => Some (NetworkError m)
  | Resolves r =>
      if negb (ok r) then Some (ClerkApiError (status r) (statusText r))
      else
        match body r with
        | Unusable => Some BodyError
        | Sessions sessions =>
            match List.find (fun s => String.eqb (Clerk.status s) "active") sessions with
            | None => Some NoActiveSession
            | Some _ => None
            end
        end
  end.

(** The error the [catch] of the session fetch receives from an attempt
    that meets a failing upstream: the rejection of [fetch], or the error
    the [try] block throws for a response that is not [ok], with its status
    and status text. *)
Definition failureOf (o : FetchOutcome) : Error :=
  match o with
  | Rejects message => NetworkError message
  | Resolves r => ClerkApiError (status r) (statusText r)
  end.

(** The sleep that follows a failed attempt, if any. *)
Definition pause (attempt : Z) (w : World) : World :=
  if attempt <? Session.maxRetries Session.RETRY_CONFIG - 1
  then record_event (EvSleep (Session.calculateBackoff attempt)) w
  else w.

(** A status that [shouldRetry] takes for transient: 0 or 5xx. *)
Definition transientStatus (st : Z) : Prop := st = 0 \/ 500 <= st < 600.

End SessionSchedule.

Module Worlds.

(** A 200 response of the Clerk API with one ended and one active session. *)
Definition okResponse : Response :=
  {| status := 200; statusText := "OK";
     body := Sessions
               [ {| Clerk.id := "sess_ended"; Clerk.status := "ended";
                    Clerk.expire_at := 0; Clerk.last_active_at := 0 |};
                 {| Clerk.id := "sess_live"; Clerk.status := "active";
                    Clerk.expire_at := 0; Clerk.last_active_at := 0 |} ] |}.

(** A fresh world whose upstream rejects the first two calls and answers
    [okResponse] from the third on; the clock reads [1000 * n]. *)
Definition flakyWorld : World :=
  {| upstream := fun n => if (n <? 2)%nat then Rejects "connection reset"
                          else Resolves okResponse;
     clock := fun n => 1000 * Z.of_nat n;
     calls := 0; ticks := 0; trace := []; cachedSession := None |}.

(** A fresh world whose upstream always answers [okResponse]. *)
Definition steadyWorld : World :=
  {| upstream := fun _ => Resolves okResponse;
     clock := fun n => 1000 * Z.of_nat n;
     calls := 0; ticks := 0; trace := []; cachedSession := None |}.

End Worlds.

Module QueueRuns.

Section Tasks.

Context {Task : Type}.

(** The tasks callers handed to [enqueue] in a run, in order, and the number
    of completions in it. *)
Definition enqueuedOf (cs : list (Queue.Call Task)) : list Task :=
  flat_map (fun c => match c with Queue.Enqueue t _ => [t] | Queue.Settle => [] end) cs.

Definition settled (c : Queue.Call Task) : Z :=
  match c with
  | Queue.Settle => 1
  | Queue.Enqueue _ _ => 0
  end.

Definition settlesOf (cs : list (Queue.Call Task)) : Z :=
  Z.of_nat (length (List.filter
                      (fun c => match c with Queue.Settle => true | _ => false end) cs)).

End Tasks.

End QueueRuns.

Module TokenText.

(** [parts.join(".")]. *)
Fixpoint join_dot (parts : list string) : string :=
  match parts with
  | [] => EmptyString
  | [p] => p
  | p :: rest => (p ++ String "."%char (join_dot rest))%string
  end.

(** The number of ["."] in a string. *)
Fixpoint dots (s : string) : nat :=
  match s with
  | EmptyString => O
  | String c rest => ((if Ascii.eqb c "."%char then 1 else 0) + dots rest)%nat
  end.

End TokenText.

(* ===================================================================== *)
(** * auth.ts: validateApiKey *)
(* ===================================================================== *)

Module Auth.

(** [!key] for a [string | null]: [null] and the empty string. *)
Definition missing (key : option string) : bool :=
  match key with
  | None => true
  | Some k => String.eqb k ""
  end.

(** [validateApiKey(providedKey, configuredKey)]. *)
Definition validateApiKey (providedKey configuredKey : option string) : bool :=
  if missing configuredKey then true
  else if missing providedKey then false
  else
    match providedKey, configuredKey with
    | Some p, Some c => String.eqb p c
    | _, _ => false
    end.

End Auth.

(* ===================================================================== *)
(** * logging.ts: estimateTokens *)
(* ===================================================================== *)

Module Logging.

(** A JavaScript string, as its UTF-16 code units ([text.length] is their
    number). *)
Definition CodeUnits : Type := list N.

(** [estimateTokens(text)]; [None] is an argument that is not a string. *)
Definition estimateTokens (text : option CodeUnits) : Z :=
  match text with
  | None => 0
  | Some units =>
      if Z.of_nat (length units) =? 0 then 0
      else - ((- Z.of_nat (length units)) / 4)
  end.

End Logging.

(* ===================================================================== *)
(** * canvas.ts: validateCanvasId *)
(* ===================================================================== *)

Module Canvas.

Definition inRange (lo hi c : ascii) : bool :=
  (nat_of_ascii lo <=? nat_of_ascii c)%nat && (nat_of_ascii c <=? nat_of_ascii hi)%nat.

(** The classes of [UUID_REGEX] under its [i] flag. *)
Definition isHex (c : ascii) : bool :=
  inRange "0" "9" c || inRange "a" "f" c || inRange "A" "F" c.

Definition isVersion (c : ascii) : bool := inRange "1" "5" c.

Definition isVariant (c : ascii) : bool :=
  inRange "8" "9" c || inRange "a" "b" c || inRange "A" "B" c.

Definition isHyphen (c : ascii) : bool := Ascii.eqb c "-".

(** [UUID_REGEX]: the class of each of its 36 positions. *)
Definition UUID_REGEX : list (ascii -> bool) :=
  repeat isHex 8 ++ [isHyphen] ++ repeat isHex 4 ++ [isHyphen]
  ++ [isVersion] ++ repeat isHex 3 ++ [isHyphen]
  ++ [isVariant] ++ repeat isHex 3 ++ [isHyphen] ++ repeat isHex 12.

(** [regex.test(s)] for a regex anchored at both ends that is a sequence of
    one-character classes. *)
Fixpoint test (regex : list (ascii -> bool)) (s : string) : bool :=
  match regex, s with
  | [], EmptyString => true
  | class :: regex', String c rest => class c && test regex' rest
  | _, _ => false
  end.

(** [validateCanvasId(canvasId)]; [None] is an argument that is not a
    string. *)
Definition validateCanvasId (canvasId : option string) : bool :=
  match canvasId with
  | None => false
  | Some s => if String.eqb s "" then false else test UUID_REGEX s
  end.

(** ASCII case mapping. *)
Definition upperChar (c : ascii) : ascii :=
  if inRange "a" "z" c then ascii_of_nat (nat_of_ascii c - 32) else c.

Definition lowerChar (c : ascii) : ascii :=
  if inRange "A" "Z" c then ascii_of_nat (nat_of_ascii c + 32) else c.

Fixpoint mapChars (f : ascii -> ascii) (s : string) : string :=
  match s with
  | EmptyString => EmptyString
  | String c rest => String (f c) (mapChars f rest)
  end.

End Canvas.

(* ===================================================================== *)
(** * Properties of the pure part of retry.ts *)
(* ===================================================================== *)

Module RetryFacts.
Import Retry.

Lemma safeAttempt_inject (n : Z) : 0 <= n -> safeAttempt (inject_Z n) = n.
Proof. intros Hn. unfold safeAttempt. rewrite Qfloor_Z. lia. Qed.

Lemma safeAttempt_negative (a : Q) : (a < 0)%Q -> safeAttempt a = 0.
Proof.
  intros Ha. unfold safeAttempt.
  assert (Hle : Qfloor a <= 0).
  { change 0 with (Qfloor 0). apply Qfloor_resp_le. now apply Qlt_le_weak. }
  lia.
Qed.

Lemma safeAttempt_idempotent (a : Q) :
  safeAttempt (inject_Z (safeAttempt a)) = safeAttempt a.
Proof. apply safeAttempt_inject. unfold safeAttempt. lia. Qed.

Lemma calculateBackoff_floor (a : Q) (base max : Z) :
  calculateBackoff a base max =
  calculateBackoff (inject_Z (Z.max 0 (Qfloor a))) base max.
Proof.
  unfold calculateBackoff. fold (safeAttempt a).
  now rewrite safeAttempt_idempotent.
Qed.

(** C6. [shouldRetry status attempt maxRetries] is [true] exactly when the
    status is 0 or a 5xx status and [attempt < maxRetries]; hence it is
    [false] once [attempt >= maxRetries] whatever the status, and [false]
    for every 4xx status and every success (2xx) status whatever budget
    remains. *)
Theorem shouldRetry_spec (status attempt maxRetries : Z) :
  (shouldRetry status attempt maxRetries = true <->
     (status = 0 \/ 500 <= status < 600) /\ attempt < maxRetries)
  /\ (maxRetries <= attempt -> shouldRetry status attempt maxRetries = false)
  /\ (400 <= status < 500 -> shouldRetry status attempt maxRetries = false)
  /\ (200 <= status < 300 -> shouldRetry status attempt maxRetries = false).
Proof.
  unfold shouldRetry.
  destruct (Z.geb_spec attempt maxRetries) as [Hge | Hlt];
    destruct (Z.eqb_spec status 0) as [H0 | H0];
    destruct (Z.geb_spec status 500) as [H5 | H5];
    destruct (Z.ltb_spec status 600) as [H6 | H6];
    cbn; repeat split; intros; try reflexivity; try discriminate; try lia;
    try (left; assumption); try (right; lia).
Qed.

Lemma shouldRetry_spec_witness :
  shouldRetry 503 1 3 = true /\ shouldRetry 503 3 3 = false
  /\ shouldRetry 404 0 3 = false /\ shouldRetry 200 0 3 = false.
Proof.
  split; [apply (proj1 (shouldRetry_spec 503 1 3)); lia |].
  split; [apply (proj1 (proj2 (shouldRetry_spec 503 3 3))); lia |].
  split; [apply (proj1 (proj2 (proj2 (shouldRetry_spec 404 0 3)))); lia |].
  apply (proj2 (proj2 (proj2 (shouldRetry_spec 200 0 3)))); lia.
Defined.

(** C7, the part the code contradicts: a fractional attempt is not treated
    as 0; attempt 3/2 is floored to 1 and waits 2000 ms, not the 1000 ms of
    attempt 0. *)
Lemma calculateBackoff_fractional_not_zero :
  calculateBackoff (3 # 2) 1000 10000 <> calculateBackoff 0 1000 10000.
Proof. vm_compute. discriminate. Qed.

(** C7 (amended). For a positive base delay and an integer [attempt >= 0]
    the delay is [min (base * 2^attempt) max]; a negative attempt gives the
    delay of attempt 0, whatever the base; for a positive base delay any
    attempt, fractional or not, gives the delay of its integer floor clamped
    at 0, so that a fraction below 1 behaves as attempt 0 and a larger one
    does not; the function is total; and the five delays of the default
    configuration are 1000, 2000, 4000, 8000 and 10000.  The base delay is
    positive where the statement gives the value at an unbounded attempt:
    that is where the exact product and the product of doubles agree. *)
Theorem calculateBackoff_spec (base max : Z) :
  (forall n : Z, 0 < base -> 0 <= n ->
     calculateBackoff (inject_Z n) base max = Z.min (base * 2 ^ n) max)
  /\ (forall a : Q, (a < 0)%Q ->
     calculateBackoff a base max = calculateBackoff 0 base max)
  /\ (forall a : Q, 0 < base ->
     calculateBackoff a base max =
     calculateBackoff (inject_Z (Z.max 0 (Qfloor a))) base max)
  /\ (forall a : Q, (0 <= a)%Q -> (a < 1)%Q ->
     calculateBackoff a base max = calculateBackoff 0 base max)
  /\ calculateBackoff 0 1000 10000 = 1000
  /\ calculateBackoff 1 1000 10000 = 2000
  /\ calculateBackoff 2 1000 10000 = 4000
  /\ calculateBackoff 3 1000 10000 = 8000
  /\ calculateBackoff 4 1000 10000 = 10000.
Proof.
  split; [| split; [| split; [| split]]].
  - intros n _ Hn. unfold calculateBackoff. now rewrite safeAttempt_inject.
  - intros a Ha. unfold calculateBackoff.
    now rewrite (safeAttempt_negative a Ha).
  - intros a _. apply calculateBackoff_floor.
  - intros a H0 H1. unfold calculateBackoff.
    assert (Hf : Qfloor a = 0).
    { assert (Hlo : 0 <= Qfloor a)
        by (change 0 with (Qfloor 0); now apply Qfloor_resp_le).
      assert (Hhi : Qfloor a < 1).
      { destruct (Z_lt_le_dec (Qfloor a) 1) as [Hlt | Hge]; [exact Hlt |].
        exfalso. apply (Qlt_irrefl a).
        apply Qlt_le_trans with (y := 1%Q); [exact H1 |].
        apply Qle_trans with (y := inject_Z (Qfloor a)).
        - change 1%Q with (inject_Z 1). now rewrite <- Zle_Qle.
        - apply Qfloor_le. }
      lia. }
    unfold safeAttempt. rewrite Hf. reflexivity.
  - repeat split; vm_compute; reflexivity.
Qed.

Lemma calculateBackoff_spec_witness :
  calculateBackoff (inject_Z 2) 1000 10000 = Z.min (1000 * 2 ^ 2) 10000
  /\ calculateBackoff (-5 # 2) 1000 10000 = calculateBackoff 0 1000 10000
  /\ calculateBackoff (7 # 2) 1000 10000 =
     calculateBackoff (inject_Z (Z.max 0 (Qfloor (7 # 2)))) 1000 10000
  /\ calculateBackoff (1 # 2) 1000 10000 = calculateBackoff 0 1000 10000.
Proof.
  destruct (calculateBackoff_spec 1000 10000) as (Hn & Hneg & Hfloor & Hfrac & _).
  split; [apply Hn; lia |].
  split; [apply Hneg; reflexivity |].
  split; [apply Hfloor; lia |].
  apply Hfrac; [discriminate | reflexivity].
Defined.

End RetryFacts.

(* ===================================================================== *)
(** * Properties of the loop of fetchWithRetry *)
(* ===================================================================== *)

Module EffFacts.

Lemma bind_returned {A B} (c : Eff A) (k : A -> Eff B) w a w' :
  c w = (Returned a, w') -> bind c k w = k a w'.
Proof. intros H. unfold bind. now rewrite H. Qed.

Lemma bind_thrown {A B} (c : Eff A) (k : A -> Eff B) w e w' :
  c w = (Thrown e, w') -> bind c k w = (Thrown e, w').
Proof. intros H. unfold bind. now rewrite H. Qed.

Lemma bind_out_of_fuel {A B} (c : Eff A) (k : A -> Eff B) w w' :
  c w = (OutOfFuel, w') -> bind c k w = (OutOfFuel, w').
Proof. intros H. unfold bind. now rewrite H. Qed.

(** A loop leaves [cachedSession] and the oracles alone when its body does. *)
Lemma forLoop_preserves {S R} (P : World -> World -> Prop)
    (cond : Z -> bool) (body : Z -> S -> Eff (R + S)) :
  (forall w, P w w) ->
  (forall w1 w2 w3, P w1 w2 -> P w2 w3 -> P w1 w3) ->
  (forall i s w, P w (snd (body i s w))) ->
  forall fuel i s w, P w (snd (forLoop fuel cond body i s w)).
Proof.
  intros Hrefl Htrans Hbody.
  induction fuel as [| fuel IH]; intros i s w; cbn [forLoop];
    destruct (cond i); cbn; try apply Hrefl.
  unfold bind. specialize (Hbody i s w).
  destruct (body i s w) as [[[v | s'] | e |] w1]; cbn in *; try assumption.
  eapply Htrans; [exact Hbody | apply IH].
Qed.

End EffFacts.

Module RetryLoopFacts.
Import Retry EffFacts.

Section Run.

Variables maxRetries baseDelay maxDelay : Z.

Local Abbreviation once := (attemptOnce maxRetries baseDelay maxDelay).
Local Abbreviation guard := (fun attempt : Z => attempt <=? maxRetries).

(** One iteration makes exactly one call of [fetch], preceded by the backoff
    sleep when it is a retry, and does not run out of fuel. *)
Lemma attemptOnce_effect (n : nat) (s : Locals) (w : World) :
  fst (once (Z.of_nat n) s w) <> OutOfFuel
  /\ calls (snd (once (Z.of_nat n) s w)) = S (calls w)
  /\ trace (snd (once (Z.of_nat n) s w)) =
     trace w ++ attemptEvents baseDelay maxDelay n.
Proof.
  destruct s as [lastError lastStatus].
  cbv [attemptOnce try_catch bind fetch sleep ret throw].
  destruct n as [| p].
  - change (Z.of_nat 0 >? 0) with false. cbv beta iota.
    destruct (upstream w (calls w)) as [r | m]; cbv beta iota.
    + destruct (ok r || (status r >=? 400) && (status r <? 500));
        [| destruct (negb (shouldRetry (status r) (Z.of_nat 0) maxRetries))];
        cbn; repeat split; congruence.
    + destruct (negb (shouldRetry 0 (Z.of_nat 0) maxRetries));
        cbn; repeat split; congruence.
  - replace (Z.of_nat (S p) >? 0) with true by (symmetry; apply Z.gtb_lt; lia).
    replace (Z.of_nat (S p) - 1) with (Z.of_nat p) by lia.
    cbv beta iota. cbn [attemptEvents record_event upstream calls].
    destruct (upstream w (calls w)) as [r | m]; cbv beta iota.
    + destruct (ok r || (status r >=? 400) && (status r <? 500));
        [| destruct (negb (shouldRetry (status r) (Z.of_nat (S p)) maxRetries))];
        cbn; rewrite <- ?app_assoc; repeat split; congruence.
    + destruct (negb (shouldRetry 0 (Z.of_nat (S p)) maxRetries));
        cbn; rewrite <- ?app_assoc; repeat split; congruence.
Qed.

Lemma attemptsTrace_cons (n m : nat) :
  attemptsTrace baseDelay maxDelay n (S m) =
  attemptEvents baseDelay maxDelay n ++ attemptsTrace baseDelay maxDelay (S n) m.
Proof. reflexivity. Qed.

(** The loop started at attempt [n] with the fuel [fetchWithRetry] gives it:
    it ends, after [m] attempts that stay within the budget, and its events
    are those of attempts [n], ..., [n + m - 1]. *)
Lemma forLoop_attempts (fuel : nat) :
  forall (n : nat) (s : Locals) (w : World),
    (Z.to_nat (maxRetries + 1) <= fuel + n)%nat ->
    exists m : nat,
      fst (forLoop fuel guard once (Z.of_nat n) s w) <> OutOfFuel
      /\ (n + m <= Nat.max n (Z.to_nat (maxRetries + 1)))%nat
      /\ (Z.of_nat n <= maxRetries -> (1 <= m)%nat)
      /\ calls (snd (forLoop fuel guard once (Z.of_nat n) s w)) = (calls w + m)%nat
      /\ trace (snd (forLoop fuel guard once (Z.of_nat n) s w)) =
         trace w ++ attemptsTrace baseDelay maxDelay n m.
Proof.
  induction fuel as [| fuel IH]; intros n s w Hfuel.
  - cbn [forLoop].
    destruct (Z.leb_spec (Z.of_nat n) maxRetries) as [Hle | Hgt]; [lia |].
    exists 0%nat. cbn. rewrite app_nil_r.
    repeat split; try congruence; lia.
  - cbn [forLoop].
    destruct (Z.leb_spec (Z.of_nat n) maxRetries) as [Hle | Hgt].
    + destruct (attemptOnce_effect n s w) as (Hfuel1 & Hcalls1 & Htrace1).
      destruct (once (Z.of_nat n) s w) as [[[r | s'] | e |] w1] eqn:Hrun;
        cbn [fst snd] in *.
      * rewrite (bind_returned _ _ _ _ _ Hrun).
        exists 1%nat. cbn [ret fst snd]. rewrite attemptsTrace_cons.
        cbn [attemptsTrace seq flat_map]. rewrite app_nil_r.
        repeat split; try congruence; lia.
      * rewrite (bind_returned _ _ _ _ _ Hrun).
        replace (Z.of_nat n + 1) with (Z.of_nat (S n)) by lia.
        destruct (IH (S n) s' w1) as (m & Hf & Hm & _ & Hc & Ht); [lia |].
        exists (S m). rewrite attemptsTrace_cons, Ht, Htrace1, Hc, Hcalls1.
        rewrite <- app_assoc.
        repeat split; try assumption; lia.
      * rewrite (bind_thrown _ _ _ _ _ Hrun).
        exists 1%nat. rewrite attemptsTrace_cons.
        cbn [attemptsTrace seq flat_map fst snd]. rewrite app_nil_r.
        repeat split; try congruence; lia.
      * congruence.
    + exists 0%nat. cbn. rewrite app_nil_r.
      repeat split; try congruence; lia.
Qed.

End Run.

(** In the events of attempts 0 to [m - 1], the n-th retry is a sleep of
    [calculateBackoff (n - 1)] at position [2n - 1] and a [fetch] at
    position [2n]. *)
Lemma attemptsTrace_tail (baseDelay maxDelay : Z) (m : nat) :
  forall k j : nat, (j < m)%nat ->
    nth_error (attemptsTrace baseDelay maxDelay (S k) m) (2 * j) =
    Some (EvSleep (calculateBackoff (inject_Z (Z.of_nat (k + j))) baseDelay maxDelay))
    /\ nth_error (attemptsTrace baseDelay maxDelay (S k) m) (S (2 * j)) =
       Some EvFetch.
Proof.
  induction m as [| m IH]; intros k j Hj; [lia |].
  rewrite attemptsTrace_cons. cbn [attemptEvents app].
  destruct j as [| j].
  - cbn. rewrite Nat.add_0_r. split; reflexivity.
  - replace (2 * S j)%nat with (S (S (2 * j))) by lia. cbn [nth_error].
    replace (k + S j)%nat with (S k + j)%nat by lia.
    apply IH. lia.
Qed.

Lemma attemptsTrace_sleep (baseDelay maxDelay : Z) (m n : nat) :
  (1 <= n < m)%nat ->
  nth_error (attemptsTrace baseDelay maxDelay 0 m) (2 * n - 1) =
  Some (EvSleep (calculateBackoff (inject_Z (Z.of_nat n - 1)) baseDelay maxDelay)).
Proof.
  intros Hn. destruct m as [| m]; [lia |].
  rewrite attemptsTrace_cons. cbn [attemptEvents app].
  replace (2 * n - 1)%nat with (S (2 * (n - 1))) by lia. cbn [nth_error].
  replace (Z.of_nat n - 1) with (Z.of_nat (0 + (n - 1))) by lia.
  apply attemptsTrace_tail. lia.
Qed.

Lemma attemptsTrace_fetch (baseDelay maxDelay : Z) (m n : nat) :
  (1 <= n < m)%nat ->
  nth_error (attemptsTrace baseDelay maxDelay 0 m) (2 * n) = Some EvFetch.
Proof.
  intros Hn. destruct m as [| m]; [lia |].
  rewrite attemptsTrace_cons. cbn [attemptEvents app].
  replace (2 * n)%nat with (S (S (2 * (n - 1)))) by lia. cbn [nth_error].
  apply (attemptsTrace_tail baseDelay maxDelay m 0 (n - 1)). lia.
Qed.

(** C5. A run of [fetchWithRetry] with [maxRetries >= 0] ends, having called
    the underlying [fetch] [m] times with [1 <= m <= maxRetries + 1], and its
    events are exactly those of attempts 0 to [m - 1]: a bare [fetch], then
    for the n-th retry a sleep of [calculateBackoff (n - 1) baseDelay
    maxDelay] followed by a [fetch]; so the first retry waits
    [calculateBackoff 0 baseDelay maxDelay]. *)
Theorem fetchWithRetry_attempts (maxRetries baseDelay maxDelay : Z) (w : World) :
  0 <= maxRetries ->
  exists m : nat,
    fst (fetchWithRetry maxRetries baseDelay maxDelay w) <> OutOfFuel
    /\ (1 <= m)%nat /\ Z.of_nat m <= maxRetries + 1
    /\ calls (snd (fetchWithRetry maxRetries baseDelay maxDelay w)) = (calls w + m)%nat
    /\ trace (snd (fetchWithRetry maxRetries baseDelay maxDelay w)) =
       trace w ++ attemptsTrace baseDelay maxDelay 0 m
    /\ (forall n : nat, (1 <= n < m)%nat ->
        nth_error (attemptsTrace baseDelay maxDelay 0 m) (2 * n - 1) =
        Some (EvSleep (calculateBackoff (inject_Z (Z.of_nat n - 1)) baseDelay maxDelay))
        /\ nth_error (attemptsTrace baseDelay maxDelay 0 m) (2 * n) = Some EvFetch).
Proof.
  intros Hmr.
  destruct (forLoop_attempts maxRetries baseDelay maxDelay
              (Z.to_nat (maxRetries + 1)) 0%nat (None, 0) w)
    as (m & Hfuel & Hm & H1 & Hcalls & Htrace); [lia |].
  exists m.
  assert (Hrun :
    fst (fetchWithRetry maxRetries baseDelay maxDelay w) <> OutOfFuel
    /\ snd (fetchWithRetry maxRetries baseDelay maxDelay w) =
       snd (forLoop (Z.to_nat (maxRetries + 1)) (fun a => a <=? maxRetries)
              (attemptOnce maxRetries baseDelay maxDelay) 0 (None, 0) w)).
  { unfold fetchWithRetry, bind. change (Z.of_nat 0) with 0 in Hfuel.
    destruct (forLoop (Z.to_nat (maxRetries + 1)) (fun a => a <=? maxRetries)
                (attemptOnce maxRetries baseDelay maxDelay) 0 (None, 0) w)
      as [[[r | [[e |] st]] | e |] w1]; cbn in *; split; congruence. }
  destruct Hrun as [Hok Hsnd]. rewrite Hsnd.
  change (Z.of_nat 0) with 0 in *.
  repeat split; try assumption; try lia.
  - apply (attemptsTrace_sleep baseDelay maxDelay m n); lia.
  - apply (attemptsTrace_fetch baseDelay maxDelay m n); lia.
Qed.

Lemma fetchWithRetry_attempts_witness :
  exists m : nat,
    fst (fetchWithRetry 3 1000 10000 silentWorld) <> OutOfFuel
    /\ (1 <= m)%nat /\ Z.of_nat m <= 3 + 1
    /\ calls (snd (fetchWithRetry 3 1000 10000 silentWorld)) = (0 + m)%nat
    /\ trace (snd (fetchWithRetry 3 1000 10000 silentWorld)) =
       [] ++ attemptsTrace 1000 10000 0 m
    /\ (forall n : nat, (1 <= n < m)%nat ->
        nth_error (attemptsTrace 1000 10000 0 m) (2 * n - 1) =
        Some (EvSleep (calculateBackoff (inject_Z (Z.of_nat n - 1)) 1000 10000))
        /\ nth_error (attemptsTrace 1000 10000 0 m) (2 * n) = Some EvFetch).
Proof. apply (fetchWithRetry_attempts 3 1000 10000 silentWorld). lia. Defined.

End RetryLoopFacts.

(* ===================================================================== *)
(** * Properties of the session manager *)
(* ===================================================================== *)

Module SessionFacts.
Import EffFacts.

Lemma failing_not_ok (r : Response) : 500 <= status r < 600 -> ok r = false.
Proof.
  intros H. unfold ok.
  destruct (Z.leb_spec (status r) 299); [lia |]. apply andb_false_r.
Qed.

(** Against a failing upstream the [try] block of the session fetch throws
    after its call of [fetch]. *)
Lemma requestActiveSession_failing (w : World) :
  failing (upstream w (calls w)) ->
  Session.requestActiveSession w =
  (Thrown (SessionSchedule.failureOf (upstream w (calls w))), after_fetch w).
Proof.
  intros Hf. unfold Session.requestActiveSession, bind, fetch, SessionSchedule.failureOf.
  destruct (upstream w (calls w)) as [r | m]; cbn in Hf.
  - now rewrite (failing_not_ok r Hf).
  - reflexivity.
Qed.

(** A failed attempt overwrites [lastError] with its own error. *)
Lemma session_attemptOnce_failing (a : Z) (lastError : option Error) (w : World) :
  failing (upstream w (calls w)) ->
  Session.attemptOnce a lastError w =
  (Returned (inr (Some (SessionSchedule.failureOf (upstream w (calls w))))),
   if a <? Session.maxRetries Session.RETRY_CONFIG - 1
   then record_event (EvSleep (Session.calculateBackoff a)) (after_fetch w)
   else after_fetch w).
Proof.
  intros Hf. pose proof (requestActiveSession_failing w Hf) as He.
  unfold Session.attemptOnce, try_catch.
  rewrite (bind_thrown _ _ _ _ _ He).
  destruct (a <? Session.maxRetries Session.RETRY_CONFIG - 1); reflexivity.
Qed.

(** Against a failing upstream the session fetch throws, after its three
    attempts, the error of the third. *)
Lemma fetchSessionIdFromClerk_failing (clientToken : string) (w : World) :
  (forall n, failing (upstream w n)) ->
  Session.fetchSessionIdFromClerk clientToken w =
  (Thrown (SessionSchedule.failureOf (upstream w (calls w + 2)%nat)), afterSessionAttempts w).
Proof.
  intros Hf. unfold Session.fetchSessionIdFromClerk.
  change (Z.to_nat (Session.maxRetries Session.RETRY_CONFIG)) with 3%nat.
  replace (calls w + 2)%nat with (S (S (calls w))) by lia.
  pose proof (session_attemptOnce_failing 0 None w (Hf _)) as H1.
  set (e1 := SessionSchedule.failureOf (upstream w (calls w))) in H1.
  set (w1 := record_event (EvSleep 1000) (after_fetch w)).
  change (if 0 <? _ then _ else _) with w1 in H1.
  pose proof (session_attemptOnce_failing 1 (Some e1) w1 (Hf _)) as H2.
  set (e2 := SessionSchedule.failureOf (upstream w1 (calls w1))) in H2.
  set (w2 := record_event (EvSleep 2000) (after_fetch w1)).
  change (if 1 <? _ then _ else _) with w2 in H2.
  pose proof (session_attemptOnce_failing 2 (Some e2) w2 (Hf _)) as H3.
  change (upstream w2 (calls w2)) with (upstream w (S (S (calls w)))) in H3.
  set (e3 := SessionSchedule.failureOf (upstream w (S (S (calls w))))) in *.
  change (if 2 <? _ then _ else _) with (after_fetch w2) in H3.
  assert (Hloop :
    forLoop 3 (fun attempt => attempt <? Session.maxRetries Session.RETRY_CONFIG)
      Session.attemptOnce 0 None w = (Returned (inr (Some e3)), after_fetch w2)).
  { cbn [forLoop]. change (0 <? _) with true. cbv iota.
    rewrite (bind_returned _ _ _ _ _ H1). change (0 + 1) with 1.
    change (1 <? _) with true. cbv iota.
    rewrite (bind_returned _ _ _ _ _ H2). change (1 + 1) with 2.
    change (2 <? _) with true. cbv iota.
    rewrite (bind_returned _ _ _ _ _ H3). reflexivity. }
  rewrite (bind_returned _ _ _ _ _ Hloop). reflexivity.
Qed.

(** The session fetch never touches [cachedSession]. *)
Lemma requestActiveSession_cache (w : World) :
  cachedSession (snd (Session.requestActiveSession w)) = cachedSession w.
Proof.
  unfold Session.requestActiveSession, bind, fetch.
  destruct (upstream w (calls w)) as [r | m]; cbn; [| reflexivity].
  destruct (negb (ok r)); cbn; [reflexivity |].
  destruct (body r) as [| sessions]; cbn; [reflexivity |].
  destruct (find _ sessions); reflexivity.
Qed.

Lemma session_attemptOnce_cache (a : Z) (lastError : option Error) (w : World) :
  cachedSession (snd (Session.attemptOnce a lastError w)) = cachedSession w.
Proof.
  unfold Session.attemptOnce, try_catch, bind.
  pose proof (requestActiveSession_cache w) as Hreq.
  destruct (Session.requestActiveSession w) as [[sid | e |] w1];
    cbn in *; try assumption.
  destruct (a <? _); cbn; assumption.
Qed.

Lemma fetchSessionIdFromClerk_cache (clientToken : string) (w : World) :
  cachedSession (snd (Session.fetchSessionIdFromClerk clientToken w)) =
  cachedSession w.
Proof.
  unfold Session.fetchSessionIdFromClerk, bind.
  pose proof (forLoop_preserves (S := option Error) (R := string)
                (fun w w' => cachedSession w' = cachedSession w)
                (fun attempt => attempt <? Session.maxRetries Session.RETRY_CONFIG)
                Session.attemptOnce
                (fun _ => eq_refl)
                (fun _ _ _ H12 H23 => eq_trans H23 H12)
                session_attemptOnce_cache
                (Z.to_nat (Session.maxRetries Session.RETRY_CONFIG)) 0 None w)
    as Hloop.
  destruct (forLoop _ _ _ 0 None w) as [[[sid | [e |]] | e |] w1];
    cbn in *; exact Hloop.
Qed.

Lemma cacheLookup_cache (forceRefresh : bool) (w : World) :
  cachedSession (snd (Session.cacheLookup forceRefresh w)) = cachedSession w.
Proof.
  cbv [Session.cacheLookup bind read_cachedSession Date_now ret].
  destruct forceRefresh; cbn; [reflexivity |].
  destruct (cachedSession w) eqn:Hc; cbn; congruence.
Qed.

(** The refresh path is taken on a forced refresh, on an empty cache and on
    an expired entry. *)
Lemma cacheLookup_miss (forceRefresh : bool) (w : World) :
  forceRefresh = true \/ cachedSession w = None
  \/ (exists c, cachedSession w = Some c /\ expiresAt c <= clock w (ticks w)) ->
  fst (Session.cacheLookup forceRefresh w) = Returned None.
Proof.
  cbv [Session.cacheLookup bind read_cachedSession Date_now ret].
  intros [-> | [Hnone | (c & Hc & Hexp)]]; cbn; [reflexivity | |].
  - rewrite Hnone. destruct forceRefresh; reflexivity.
  - rewrite Hc. destruct forceRefresh; cbn; [reflexivity |].
    destruct (Z.ltb_spec (clock w (ticks w)) (expiresAt c)); [lia | reflexivity].
Qed.

(** Against a failing upstream an iteration of [fetchWithRetry] goes on to
    the next attempt while [attempt < maxRetries], and ends the run at
    [attempt >= maxRetries]. *)
Lemma retry_attemptOnce_failing (maxRetries baseDelay maxDelay a : Z)
    (s : Retry.Locals) (w : World) :
  failing (upstream w (calls w)) ->
  exists r,
    Retry.attemptOnce maxRetries baseDelay maxDelay a s w =
    (r, after_fetch
          (if a >? 0
           then record_event
                  (EvSleep (Retry.calculateBackoff (inject_Z (a - 1))
                              baseDelay maxDelay)) w
           else w))
    /\ (a < maxRetries -> exists s', r = Returned (inr s'))
    /\ (maxRetries <= a ->
        r = match upstream w (calls w) with
            | Resolves response => Returned (inl response)
            | Rejects message =>
                Thrown (UpstreamError (a + 1) (NetworkError message))
            end).
Proof.
  intros Hf. destruct s as [lastError lastStatus].
  cbv [Retry.attemptOnce try_catch bind sleep ret throw fetch].
  assert (Hup : forall ev, upstream (record_event ev w) (calls (record_event ev w))
                           = upstream w (calls w)) by reflexivity.
  destruct (a >? 0); cbv beta iota; rewrite ?Hup;
    (destruct (upstream w (calls w)) as [resp | m]; cbn in Hf; cbv beta iota;
     [ rewrite (failing_not_ok resp Hf);
       replace ((status resp >=? 400) && (status resp <? 500)) with false
         by (destruct (Z.ltb_spec (status resp) 500); [lia |];
             now rewrite andb_false_r);
       cbn [orb]
     | ]);
    unfold Retry.shouldRetry;
    (destruct (Z.geb_spec a maxRetries) as [Hge | Hlt]; cbn [negb];
     [ eexists; split; [reflexivity |]; split; [lia | eauto]
     | ]).
  - replace ((status resp =? 0) || (status resp >=? 500) && (status resp <? 600))
      with true.
    + cbn [negb]. eexists; split; [reflexivity |]; split; [eauto | lia].
    + destruct (Z.geb_spec (status resp) 500); [| lia].
      destruct (Z.ltb_spec (status resp) 600); [| lia].
      now rewrite orb_true_r.
  - cbn. eexists; split; [reflexivity |]; split; [eauto | lia].
  - replace ((status resp =? 0) || (status resp >=? 500) && (status resp <? 600))
      with true.
    + cbn [negb]. eexists; split; [reflexivity |]; split; [eauto | lia].
    + destruct (Z.geb_spec (status resp) 500); [| lia].
      destruct (Z.ltb_spec (status resp) 600); [| lia].
      now rewrite orb_true_r.
  - cbn. eexists; split; [reflexivity |]; split; [eauto | lia].
Qed.

(** Against a failing upstream [fetchWithRetry] ends at its fourth attempt:
    it returns the 5xx response of that attempt, or throws the error that
    wraps its rejection. *)
Lemma fetchWithRetry_failing (w : World) :
  (forall n, failing (upstream w n)) ->
  Retry.fetchWithRetry 3 1000 10000 w =
  (match upstream w (calls w + 3)%nat with
   | Resolves response => Returned response
   | Rejects message => Thrown (UpstreamError 4 (NetworkError message))
   end, afterRetryAttempts w).
Proof.
  intros Hf. unfold Retry.fetchWithRetry.
  change (Z.to_nat (3 + 1)) with 4%nat.
  replace (calls w + 3)%nat with (S (S (S (calls w)))) by lia.
  destruct (retry_attemptOnce_failing 3 1000 10000 0 (None, 0) w (Hf _))
    as (r0 & H0 & Hgo0 & _).
  destruct Hgo0 as [s1 ->]; [lia |].
  change (if 0 >? 0 then _ else _) with w in H0.
  set (w1 := after_fetch w) in *.
  destruct (retry_attemptOnce_failing 3 1000 10000 1 s1 w1 (Hf _))
    as (r1 & H1 & Hgo1 & _).
  destruct Hgo1 as [s2 ->]; [lia |].
  change (if 1 >? 0 then _ else _) with (record_event (EvSleep 1000) w1) in H1.
  set (w2 := after_fetch (record_event (EvSleep 1000) w1)) in *.
  destruct (retry_attemptOnce_failing 3 1000 10000 2 s2 w2 (Hf _))
    as (r2 & H2 & Hgo2 & _).
  destruct Hgo2 as [s3 ->]; [lia |].
  change (if 2 >? 0 then _ else _) with (record_event (EvSleep 2000) w2) in H2.
  set (w3 := after_fetch (record_event (EvSleep 2000) w2)) in *.
  destruct (retry_attemptOnce_failing 3 1000 10000 3 s3 w3 (Hf _))
    as (r3 & H3 & _ & Hend).
  change (if 3 >? 0 then _ else _) with (record_event (EvSleep 4000) w3) in H3.
  change (after_fetch (record_event (EvSleep 4000) w3))
    with (afterRetryAttempts w) in H3.
  cbn [forLoop]. change (0 <=? 3) with true. cbv iota.
  unfold bind at 1. unfold bind at 1. rewrite H0.
  change (0 + 1) with 1. change (1 <=? 3) with true. cbv iota.
  unfold bind at 1. rewrite H1.
  change (1 + 1) with 2. change (2 <=? 3) with true. cbv iota.
  unfold bind at 1. rewrite H2.
  change (2 + 1) with 3. change (3 <=? 3) with true. cbv iota.
  unfold bind at 1. rewrite H3.
  rewrite (Hend ltac:(lia)).
  change (upstream w3 (calls w3)) with (upstream w (S (S (S (calls w))))).
  destruct (upstream w (S (S (S (calls w))))) as [response | message];
    reflexivity.
Qed.

(** C4, as the specification states it, fails: against an upstream that
    rejects every call, the session fetch and [fetchWithRetry] under the
    configuration (3, 1000, 10000) make neither the same number of attempts
    (3 against 4) nor the same sequence of sleeps. *)
Lemma session_fetch_differs_from_fetchWithRetry :
  ~ (calls (snd (Session.fetchSessionIdFromClerk "token" silentWorld)) =
     calls (snd (Retry.fetchWithRetry 3 1000 10000 silentWorld))
     /\ trace (snd (Session.fetchSessionIdFromClerk "token" silentWorld)) =
        trace (snd (Retry.fetchWithRetry 3 1000 10000 silentWorld))).
Proof. vm_compute. intros [H _]. discriminate H. Qed.

(** C4 (amended). The session manager has a retry loop of its own.  Against
    an upstream that fails on every attempt (a network error or a 5xx
    response), [fetchSessionIdFromClerk] makes exactly [maxRetries = 3]
    attempts, sleeping [calculateBackoff 0 = 1000] and [calculateBackoff 1 =
    2000] ms between them, and then throws the error of its last attempt:
    the rejection of the third call of [fetch], or the Clerk API error with
    the status and status text of the third response.  [fetchWithRetry]
    under the same configuration makes [maxRetries + 1 = 4] attempts, with
    the sleeps [calculateBackoff 0], [calculateBackoff 1] and
    [calculateBackoff 2], and then returns the 5xx response of the fourth
    attempt or throws the error that wraps the rejection of the fourth call
    with the count 4. *)
Theorem session_fetch_schedule (clientToken : string) (w : World) :
  (forall n, failing (upstream w n)) ->
  fst (Session.fetchSessionIdFromClerk clientToken w) =
    Thrown (match upstream w (calls w + 2)%nat with
            | Rejects message => NetworkError message
            | Resolves r => ClerkApiError (status r) (statusText r)
            end)
  /\ calls (snd (Session.fetchSessionIdFromClerk clientToken w)) =
     (calls w + Z.to_nat (Session.maxRetries Session.RETRY_CONFIG))%nat
  /\ trace (snd (Session.fetchSessionIdFromClerk clientToken w)) =
     trace w ++ [EvFetch; EvSleep (Session.calculateBackoff 0);
                 EvFetch; EvSleep (Session.calculateBackoff 1);
                 EvFetch]
  /\ fst (Retry.fetchWithRetry 3 1000 10000 w) =
     match upstream w (calls w + 3)%nat with
     | Resolves response => Returned response
     | Rejects message => Thrown (UpstreamError 4 (NetworkError message))
     end
  /\ calls (snd (Retry.fetchWithRetry 3 1000 10000 w)) = (calls w + 4)%nat
  /\ trace (snd (Retry.fetchWithRetry 3 1000 10000 w)) =
     trace w ++ [EvFetch; EvSleep (Retry.calculateBackoff 0 1000 10000);
                 EvFetch; EvSleep (Retry.calculateBackoff 1 1000 10000);
                 EvFetch; EvSleep (Retry.calculateBackoff 2 1000 10000);
                 EvFetch]
  /\ Session.calculateBackoff 0 = 1000 /\ Session.calculateBackoff 1 = 2000
  /\ Retry.calculateBackoff 0 1000 10000 = 1000
  /\ Retry.calculateBackoff 1 1000 10000 = 2000
  /\ Retry.calculateBackoff 2 1000 10000 = 4000.
Proof.
  intros Hf.
  rewrite (fetchSessionIdFromClerk_failing clientToken w Hf).
  rewrite (fetchWithRetry_failing w Hf). cbn [fst snd].
  split; [reflexivity |].
  split; [cbn; lia |].
  split; [cbn; now rewrite <- !app_assoc |].
  split; [reflexivity |].
  split; [cbn; lia |].
  split; [cbn; now rewrite <- !app_assoc |].
  repeat split; reflexivity.
Qed.

Lemma session_fetch_schedule_witness :
  fst (Session.fetchSessionIdFromClerk "token" silentWorld) =
    Thrown (NetworkError "connection refused")
  /\ calls (snd (Session.fetchSessionIdFromClerk "token" silentWorld)) = 3%nat
  /\ fst (Retry.fetchWithRetry 3 1000 10000 silentWorld) =
     Thrown (UpstreamError 4 (NetworkError "connection refused"))
  /\ calls (snd (Retry.fetchWithRetry 3 1000 10000 silentWorld)) = 4%nat.
Proof.
  destruct (session_fetch_schedule "token" silentWorld)
    as (He & Hc & _ & Hr & Hc' & _).
  - intros n. exact I.
  - split; [exact He |]. split; [exact Hc |]. split; [exact Hr | exact Hc'].
Defined.

(** C8. When [getSessionId] takes the refresh path (a forced refresh, an
    empty cache or an expired entry) and the session fetch, its attempts
    exhausted, throws, [getSessionId] throws the same error and
    [cachedSession] is what it was before the call: same id, same expiry. *)
Theorem getSessionId_failed_refresh (clientToken : string)
    (forceRefresh : bool) (w : World) (e : Error) :
  forceRefresh = true \/ cachedSession w = None
  \/ (exists c, cachedSession w = Some c /\ expiresAt c <= clock w (ticks w)) ->
  fst (Session.fetchSessionIdFromClerk clientToken
         (snd (Session.cacheLookup forceRefresh w))) = Thrown e ->
  fst (Session.getSessionId clientToken forceRefresh w) = Thrown e
  /\ cachedSession (snd (Session.getSessionId clientToken forceRefresh w)) =
     cachedSession w.
Proof.
  intros Hmiss Hfail.
  pose proof (cacheLookup_miss forceRefresh w Hmiss) as Hlook.
  pose proof (cacheLookup_cache forceRefresh w) as Hframe.
  unfold Session.getSessionId.
  destruct (Session.cacheLookup forceRefresh w) as [hit w0] eqn:Hcl.
  cbn [fst snd] in *. subst hit.
  rewrite (bind_returned _ _ _ _ _ Hcl).
  pose proof (fetchSessionIdFromClerk_cache clientToken w0) as Hframe'.
  destruct (Session.fetchSessionIdFromClerk clientToken w0) as [r w1] eqn:Hfetch.
  cbn [fst snd] in *. subst r.
  rewrite (bind_thrown _ _ _ _ _ Hfetch). cbn [fst snd].
  split; [reflexivity | congruence].
Qed.

Lemma getSessionId_failed_refresh_witness :
  fst (Session.getSessionId "token" false staleWorld)
  = Thrown (NetworkError "connection refused")
  /\ cachedSession (snd (Session.getSessionId "token" false staleWorld)) =
     cachedSession staleWorld.
Proof.
  apply (getSessionId_failed_refresh "token" false staleWorld).
  - right. right. exists {| sessionId := "sess_old"; expiresAt := -1 |}.
    split; [reflexivity | vm_compute; discriminate].
  - reflexivity.
Defined.

End SessionFacts.

(* ===================================================================== *)
(** * Properties of the rate limiter *)
(* ===================================================================== *)

Module RateLimitFacts.
Import RateLimit.

Lemma ceilSeconds_spec (x : Z) :
  1000 * (ceilSeconds x - 1) < x <= 1000 * ceilSeconds x.
Proof.
  unfold ceilSeconds.
  pose proof (Z.div_mod (- x) 1000 ltac:(lia)) as Hdm.
  pose proof (Z.mod_pos_bound (- x) 1000 ltac:(lia)) as Hmod.
  lia.
Qed.

Lemma inWindow_all (windowStart : Z) (l : list RequestRecord) :
  Forall (fun r => windowStart < timestamp r) l -> inWindow windowStart l = l.
Proof.
  induction 1 as [| r l Hr _ IH]; [reflexivity |].
  cbn. destruct (Z.gtb_spec (timestamp r) windowStart); [| lia].
  unfold inWindow in IH. now rewrite IH.
Qed.

Lemma inWindow_none (windowStart : Z) (l : list RequestRecord) :
  Forall (fun r => timestamp r <= windowStart) l -> inWindow windowStart l = [].
Proof.
  induction 1 as [| r l Hr _ IH]; [reflexivity |].
  cbn. destruct (Z.gtb_spec (timestamp r) windowStart); [lia |].
  exact IH.
Qed.

Lemma inWindow_Forall (P : RequestRecord -> Prop) (windowStart : Z)
    (l : list RequestRecord) :
  Forall P l -> Forall P (inWindow windowStart l).
Proof.
  induction 1 as [| r l Hr _ IH]; [constructor |].
  cbn. destruct (timestamp r >? windowStart); [constructor |]; assumption.
Qed.

Lemma inWindow_app (windowStart : Z) (l1 l2 : list RequestRecord) :
  inWindow windowStart (l1 ++ l2) = inWindow windowStart l1 ++ inWindow windowStart l2.
Proof. apply List.filter_app. Qed.

Lemma recordAll_snoc (times : list Z) (t : Z) (clientId : string)
    (this : RateLimiter) :
  recordAll (times ++ [t]) clientId this =
  snd (recordRequest t clientId (recordAll times clientId this)).
Proof. unfold recordAll. now rewrite fold_left_app. Qed.

(** After the requests at [times], all of them inside the window that ends
    at [now], the client's array is made of entries that were already
    expired at [now], followed by one entry per request, in order. *)
Lemma recordAll_shape (this : RateLimiter) (clientId : string) (now : Z)
    (times : list Z) :
  enabled (config this) = true ->
  Forall (fun r => timestamp r <= now - windowMs (config this))
         (default [] (requests this !! clientId)) ->
  Forall (fun t => now - windowMs (config this) < t <= now) times ->
  config (recordAll times clientId this) = config this
  /\ exists old,
       Forall (fun r => timestamp r <= now - windowMs (config this)) old
       /\ default [] (requests (recordAll times clientId this) !! clientId) =
          old ++ map (fun t => {| timestamp := t |}) times.
Proof.
  intros Hen Hold.
  induction times as [| t times IH] using rev_ind; intros Htimes.
  - split; [reflexivity |].
    exists (default [] (requests this !! clientId)).
    cbn. now rewrite app_nil_r.
  - apply Forall_app in Htimes as [Htimes Ht].
    apply Forall_inv in Ht.
    destruct (IH Htimes) as (Hcfg & old & Hexp & Hshape).
    rewrite recordAll_snoc.
    set (prev := recordAll times clientId this) in *.
    unfold recordRequest, requests_get, requests_set.
    rewrite Hcfg, Hen. cbn [negb snd config requests].
    split; [reflexivity |].
    exists (inWindow (t - windowMs (config this)) old).
    split; [now apply inWindow_Forall |].
    rewrite Hshape, lookup_insert_eq.
    cbn [default from_option]. unfold id.
    rewrite inWindow_app, map_app, <- app_assoc.
    f_equal. f_equal.
    apply inWindow_all.
    apply Forall_map. eapply Forall_impl; [exact Htimes |].
    cbn. intros a Ha. lia.
Qed.

Lemma oldest_sorted (first : Z) (others : list Z) :
  StronglySorted Z.le (first :: others) -> oldest first others = first.
Proof.
  intros Hs. apply StronglySorted_inv in Hs as [_ Hall].
  unfold oldest.
  induction others as [| a others IH]; [reflexivity |].
  apply Forall_cons_iff in Hall as [Ha Hall]. cbn. rewrite (IH Hall). lia.
Qed.

(** C9. [checkLimit] leaves the limiter exactly as it found it: the map of
    every client, the queried one included, is unchanged (nothing is
    recorded, the pruned window is not written back), and a second call at
    the same instant answers the same. *)
Theorem checkLimit_read_only (now : Z) (clientId : string) (this : RateLimiter) :
  snd (checkLimit now clientId this) = this
  /\ (forall c : string,
       requests (snd (checkLimit now clientId this)) !! c = requests this !! c)
  /\ fst (checkLimit now clientId (snd (checkLimit now clientId this))) =
     fst (checkLimit now clientId this).
Proof.
  assert (Hsame : snd (checkLimit now clientId this) = this).
  { unfold checkLimit, requests_get.
    destruct (negb (enabled (config this))); [reflexivity |].
    cbv zeta beta iota.
    destruct (_ >=? maxRequests (config this)); reflexivity. }
  rewrite Hsame. repeat split; reflexivity.
Qed.

(** C3. On an enabled limiter, let a client whose earlier entries, if any,
    have all left the window record requests at the instants [times]
    (clock readings in order, all inside the window that ends at [now]).
    If there are exactly [maxRequests] of them, [checkLimit] at [now] answers
    [allowed = false], [remaining = 0] and [retryAfter = max 1 (ceil
    ((oldest + windowMs - now) / 1000))]; if there are [k < maxRequests],
    it answers [allowed = true] and [remaining = maxRequests - k]. *)
Theorem checkLimit_after_recording (this : RateLimiter) (clientId : string)
    (now : Z) (times : list Z) :
  enabled (config this) = true ->
  Forall (fun r => timestamp r <= now - windowMs (config this))
         (default [] (requests this !! clientId)) ->
  Forall (fun t => now - windowMs (config this) < t <= now) times ->
  StronglySorted Z.le times ->
  (forall first others, times = first :: others ->
     Z.of_nat (length times) = maxRequests (config this) ->
     fst (checkLimit now clientId (recordAll times clientId this)) =
     {| allowed := false;
        retryAfter :=
          Some (Z.max 1 (ceilSeconds
                           (oldest first others + windowMs (config this) - now)));
        remaining := 0 |})
  /\ (Z.of_nat (length times) < maxRequests (config this) ->
      fst (checkLimit now clientId (recordAll times clientId this)) =
      {| allowed := true; retryAfter := None;
         remaining := maxRequests (config this) - Z.of_nat (length times) |})
  /\ (forall x : Z, 1000 * (ceilSeconds x - 1) < x <= 1000 * ceilSeconds x).
Proof.
  intros Hen Hold Htimes Hsorted.
  destruct (recordAll_shape this clientId now times Hen Hold Htimes)
    as (Hcfg & old & Hexp & Hshape).
  assert (Hwin :
    inWindow (now - windowMs (config this))
      (default [] (requests (recordAll times clientId this) !! clientId)) =
    map (fun t => {| timestamp := t |}) times).
  { rewrite Hshape, inWindow_app, (inWindow_none _ old Hexp). cbn [app].
    apply inWindow_all. apply Forall_map.
    eapply Forall_impl; [exact Htimes |]. cbn. intros a Ha. lia. }
  assert (Hrun :
    fst (checkLimit now clientId (recordAll times clientId this)) =
    let clientRequests := map (fun t => {| timestamp := t |}) times in
    let requestCount := Z.of_nat (length clientRequests) in
    if requestCount >=? maxRequests (config this)
    then {| allowed := false;
            retryAfter :=
              Some (Z.max 1 (ceilSeconds
                      (match clientRequests with
                       | oldestRequest :: _ =>
                           (timestamp oldestRequest + windowMs (config this)) - now
                       | [] => windowMs (config this)
                       end)));
            remaining := 0 |}
    else {| allowed := true; retryAfter := None;
            remaining := Z.max 0 (maxRequests (config this) - requestCount) |}).
  { unfold checkLimit, requests_get. rewrite Hcfg, Hen.
    cbv zeta beta iota. cbn [negb]. rewrite Hwin.
    destruct (_ >=? maxRequests (config this)); reflexivity. }
  rewrite Hrun. cbv zeta. rewrite length_map.
  split; [| split].
  - intros first others -> Hcount.
    destruct (Z.geb_spec (Z.of_nat (length (first :: others)))
                (maxRequests (config this))); [| lia].
    cbn [map timestamp]. now rewrite (oldest_sorted first others Hsorted).
  - intros Hcount.
    destruct (Z.geb_spec (Z.of_nat (length times)) (maxRequests (config this)));
      [lia |].
    f_equal. lia.
  - apply ceilSeconds_spec.
Qed.

Lemma checkLimit_after_recording_witness :
  fst (checkLimit 100500 "c1" (recordAll [100000; 100100; 100200] "c1" limiter3)) =
  {| allowed := false; retryAfter := Some 60; remaining := 0 |}
  /\ fst (checkLimit 100500 "c1" (recordAll [100000; 100100] "c1" limiter3)) =
     {| allowed := true; retryAfter := None; remaining := 1 |}.
Proof.
  split.
  - apply (proj1 (checkLimit_after_recording limiter3 "c1" 100500
                    [100000; 100100; 100200] eq_refl
                    ltac:(constructor)
                    ltac:(repeat constructor; cbn; lia)
                    ltac:(repeat constructor; lia))
             100000 [100100; 100200] eq_refl eq_refl).
  - apply (proj1 (proj2 (checkLimit_after_recording limiter3 "c1" 100500
                    [100000; 100100] eq_refl
                    ltac:(constructor)
                    ltac:(repeat constructor; cbn; lia)
                    ltac:(repeat constructor; lia)))).
    cbn. lia.
Defined.

End RateLimitFacts.

(* ===================================================================== *)
(** * Properties of the request queue *)
(* ===================================================================== *)

Module QueueFacts.
Import Queue.

Section Tasks.

Context {Task : Type}.

Implicit Types (this : RequestQueue Task) (c : Call Task) (cs : list (Call Task))
  (ns : list (Notice Task)) (t : Task).

Lemma run_app cs1 cs2 this :
  run (cs1 ++ cs2) this =
  (fst (run cs1 this) ++ fst (run cs2 (snd (run cs1 this))),
   snd (run cs2 (snd (run cs1 this)))).
Proof.
  revert this. induction cs1 as [| c cs1 IH]; intros this; cbn [app run].
  - cbn. now destruct (run cs2 this).
  - destruct (step c this) as [ns this1]. rewrite IH.
    destruct (run cs1 this1) as [ns1 this2]. cbn [fst snd].
    now rewrite app_assoc.
Qed.

Lemma processNext_cases this :
  (processNext this = ([], this)
   /\ (queue this = [] \/ maxConcurrent (config this) <= activeCount this))
  \/ (exists next rest,
        queue this = next :: rest
        /\ activeCount this < maxConcurrent (config this)
        /\ processNext this =
           ([Promoted (task next)],
            {| queue := rest; activeCount := activeCount this + 1;
               config := config this |})).
Proof.
  unfold processNext.
  destruct (queue this) as [| next rest] eqn:Hq; cbn [length].
  - left. cbn. split; [reflexivity | now left].
  - replace (Z.of_nat (S (length rest)) =? 0) with false
      by (symmetry; apply Z.eqb_neq; lia).
    cbn [orb].
    destruct (Z.geb_spec (activeCount this) (maxConcurrent (config this))).
    + left. split; [reflexivity | right; lia].
    + right. exists next, rest. split; [reflexivity |]. split; [lia |].
      reflexivity.
Qed.

Lemma enqueue_cases t now this :
  (maxQueueSize (config this) <= Z.of_nat (length (queue this))
   /\ enqueue t now this = (Refused t, this))
  \/ (Z.of_nat (length (queue this)) < maxQueueSize (config this)
      /\ activeCount this < maxConcurrent (config this)
      /\ enqueue t now this =
         (RunNow t,
          {| queue := queue this; activeCount := activeCount this + 1;
             config := config this |}))
  \/ (Z.of_nat (length (queue this)) < maxQueueSize (config this)
      /\ maxConcurrent (config this) <= activeCount this
      /\ enqueue t now this =
         (Pushed t,
          {| queue := queue this ++ [{| task := t; enqueuedAt := now |}];
             activeCount := activeCount this; config := config this |})).
Proof.
  unfold enqueue.
  destruct (Z.geb_spec (Z.of_nat (length (queue this)))
              (maxQueueSize (config this))).
  - left. split; [lia | reflexivity].
  - destruct (Z.ltb_spec (activeCount this) (maxConcurrent (config this))).
    + right. left. repeat split; try lia.
    + right. right. repeat split; try lia.
Qed.

(** One step: the configuration stays, what leaves the pending sequence
    leaves it at the head and what enters it enters at the tail. *)
Lemma step_pending c this :
  config (snd (step c this)) = config this
  /\ promotedOf (fst (step c this)) ++ pendingTasks (snd (step c this)) =
     pendingTasks this ++ pushedOf (fst (step c this)).
Proof.
  unfold pendingTasks. destruct c as [t now |]; cbn [step].
  - destruct (enqueue_cases t now this)
      as [(_ & ->) | [(_ & _ & ->) | (_ & _ & ->)]];
      cbn; rewrite ?app_nil_r, ?map_app; split; reflexivity.
  - unfold settle.
    destruct (processNext_cases
                {| queue := queue this; activeCount := activeCount this - 1;
                   config := config this |})
      as [(-> & _) | (next & rest & Hq & _ & ->)]; cbn in *.
    + rewrite app_nil_r. split; reflexivity.
    + rewrite Hq, app_nil_r. split; reflexivity.
Qed.

Lemma step_dispatch c this :
  saturated this ->
  saturated (snd (step c this))
  /\ dispatchedOf (fst (step c this)) ++ pendingTasks (snd (step c this)) =
     pendingTasks this ++ acceptedOf (fst (step c this)).
Proof.
  unfold pendingTasks, saturated. intros Hsat.
  destruct c as [t now |]; cbn [step].
  - destruct (enqueue_cases t now this)
      as [(_ & ->) | [(_ & Hfree & ->) | (_ & Hbusy & ->)]]; cbn.
    + rewrite ?app_nil_r. split; [exact Hsat | reflexivity].
    + destruct Hsat as [Hq | Hfull]; [| lia].
      rewrite Hq. cbn. split; [now left | reflexivity].
    + rewrite ?map_app, ?app_nil_r. split; [right; lia | reflexivity].
  - unfold settle.
    destruct (processNext_cases
                {| queue := queue this; activeCount := activeCount this - 1;
                   config := config this |})
      as [(-> & Hstay) | (next & rest & Hq & Hfree & ->)]; cbn in *.
    + rewrite ?app_nil_r. split; [exact Hstay | reflexivity].
    + rewrite Hq in *. destruct Hsat as [Hnil | Hfull]; [discriminate |].
      rewrite ?app_nil_r. split; [right; lia | reflexivity].
Qed.

Lemma run_pending cs :
  forall this,
    config (snd (run cs this)) = config this
    /\ promotedOf (fst (run cs this)) ++ pendingTasks (snd (run cs this)) =
       pendingTasks this ++ pushedOf (fst (run cs this)).
Proof.
  induction cs as [| c cs IH]; intros this; cbn [run].
  - cbn. rewrite app_nil_r. split; reflexivity.
  - destruct (step_pending c this) as [Hcfg Hstep].
    destruct (step c this) as [ns this1]. cbn [fst snd] in *.
    destruct (IH this1) as [Hcfg' Hrun].
    destruct (run cs this1) as [ns' this2]. cbn [fst snd] in *.
    split; [congruence |].
    unfold promotedOf, pushedOf in *. rewrite !flat_map_app.
    rewrite <- app_assoc, Hrun, !app_assoc, Hstep. reflexivity.
Qed.

Lemma run_dispatch cs :
  forall this, saturated this ->
    saturated (snd (run cs this))
    /\ dispatchedOf (fst (run cs this)) ++ pendingTasks (snd (run cs this)) =
       pendingTasks this ++ acceptedOf (fst (run cs this)).
Proof.
  induction cs as [| c cs IH]; intros this Hsat; cbn [run].
  - cbn. rewrite app_nil_r. split; [exact Hsat | reflexivity].
  - destruct (step_dispatch c this Hsat) as [Hsat1 Hstep].
    destruct (step c this) as [ns this1]. cbn [fst snd] in *.
    destruct (IH this1 Hsat1) as [Hsat2 Hrun].
    destruct (run cs this1) as [ns' this2]. cbn [fst snd] in *.
    split; [exact Hsat2 |].
    unfold dispatchedOf, acceptedOf in *. rewrite !flat_map_app.
    rewrite <- app_assoc, Hrun, !app_assoc, Hstep. reflexivity.
Qed.

(** The pending sequence never grows beyond [maxQueueSize]. *)
Lemma step_bound c this :
  Z.of_nat (length (queue this)) <= maxQueueSize (config this) ->
  Z.of_nat (length (queue (snd (step c this)))) <=
  maxQueueSize (config (snd (step c this))).
Proof.
  intros Hb. destruct c as [t now |]; cbn [step].
  - destruct (enqueue_cases t now this)
      as [(_ & ->) | [(_ & _ & ->) | (Hroom & _ & ->)]]; cbn; try exact Hb.
    rewrite length_app. cbn. lia.
  - unfold settle.
    destruct (processNext_cases
                {| queue := queue this; activeCount := activeCount this - 1;
                   config := config this |})
      as [(-> & _) | (next & rest & Hq & _ & ->)]; cbn in *; [exact Hb |].
    rewrite Hq in Hb. cbn in Hb. lia.
Qed.

Lemma run_bound cs :
  forall this,
    Z.of_nat (length (queue this)) <= maxQueueSize (config this) ->
    Z.of_nat (length (queue (snd (run cs this)))) <=
    maxQueueSize (config (snd (run cs this))).
Proof.
  induction cs as [| c cs IH]; intros this Hb; cbn [run]; [exact Hb |].
  pose proof (step_bound c this Hb) as Hb1.
  destruct (step c this) as [ns this1]. cbn [fst snd] in *.
  specialize (IH this1 Hb1).
  destruct (run cs this1) as [ns' this2]. exact IH.
Qed.

Lemma enqueueAll_busy (jobs : list (Task * Z)) :
  forall this,
    maxConcurrent (config this) <= activeCount this ->
    Z.of_nat (length (queue this)) + Z.of_nat (length jobs) <=
    maxQueueSize (config this) ->
    run (enqueueAll jobs) this =
    (map (fun j => Pushed (fst j)) jobs,
     {| queue := queue this ++
                 map (fun j => {| task := fst j; enqueuedAt := snd j |}) jobs;
        activeCount := activeCount this; config := config this |}).
Proof.
  induction jobs as [| [t now] jobs IH]; intros this Hbusy Hroom.
  - cbn. rewrite app_nil_r. now destruct this.
  - cbn [enqueueAll map run step fst snd length] in *.
    destruct (enqueue_cases t now this)
      as [(Hfull & _) | [(_ & Hfree & _) | (_ & _ & ->)]]; [lia | lia |].
    fold (enqueueAll jobs). rewrite IH; cbn [queue activeCount config].
    + rewrite <- app_assoc. reflexivity.
    + exact Hbusy.
    + rewrite length_app. cbn [length]. lia.
Qed.

Lemma settle_drain (cfg : QueueConfig) (q : list (QueuedTask Task)) :
  maxConcurrent cfg = 1 ->
  run (repeat Settle (S (length q)))
      {| queue := q; activeCount := 1; config := cfg |} =
  (map (fun x => Promoted (task x)) q,
   {| queue := []; activeCount := 0; config := cfg |}).
Proof.
  intros Hone. induction q as [| next rest IH].
  - reflexivity.
  - assert (Hstep :
      step Settle {| queue := next :: rest; activeCount := 1; config := cfg |} =
      ([Promoted (task next)],
       {| queue := rest; activeCount := 1; config := cfg |})).
    { cbn [step]. unfold settle, processNext.
      cbn [queue activeCount config length]. rewrite Hone.
      replace (Z.of_nat (S (length rest)) =? 0) with false
        by (symmetry; apply Z.eqb_neq; lia).
      reflexivity. }
    change (repeat Settle (S (length (next :: rest))))
      with (@Settle Task :: repeat Settle (S (length rest))).
    cbn [run]. rewrite Hstep, IH. reflexivity.
Qed.

Lemma dispatchedOf_pushed (jobs : list (Task * Z)) :
  dispatchedOf (map (fun j => Pushed (fst j)) jobs) = [].
Proof. induction jobs as [| j jobs IH]; [reflexivity | exact IH]. Qed.

Lemma dispatchedOf_promoted (q : list (QueuedTask Task)) :
  dispatchedOf (map (fun x => Promoted (task x)) q) = map task q.
Proof.
  induction q as [| x q IH]; [reflexivity |]. cbn. f_equal. exact IH.
Qed.

(** With one slot: the first of [jobs] runs at once, the others wait, and as
    the running task settles, [length jobs] times, each is promoted in turn. *)
Lemma single_slot_run (cfg : QueueConfig) (jobs : list (Task * Z)) :
  maxConcurrent cfg = 1 ->
  (1 <= length jobs)%nat ->
  1 <= maxQueueSize cfg ->
  Z.of_nat (length jobs) - 1 <= maxQueueSize cfg ->
  dispatchedOf
    (fst (run (enqueueAll jobs ++ repeat Settle (length jobs)) (create cfg))) =
  map fst jobs
  /\ getStatus
       (snd (run (enqueueAll jobs ++ repeat Settle (length jobs)) (create cfg))) =
     {| pending := 0; active := 0 |}.
Proof.
  intros Hone Hlen Hsize Hroom.
  destruct jobs as [| [t now] jobs]; [cbn in Hlen; lia |].
  cbn [length] in Hroom.
  rewrite run_app.
  assert (Hfirst :
    run (enqueueAll ((t, now) :: jobs)) (create cfg) =
    (RunNow t :: map (fun j => Pushed (fst j)) jobs,
     {| queue := map (fun j => {| task := fst j; enqueuedAt := snd j |}) jobs;
        activeCount := 1; config := cfg |})).
  { cbn [enqueueAll map run step fst snd].
    destruct (enqueue_cases t now (create cfg))
      as [(Hfull & _) | [(_ & _ & ->) | (_ & Hbusy & _)]];
      cbn in *; [lia | | lia].
    fold (enqueueAll jobs). rewrite enqueueAll_busy; cbn; [reflexivity | lia | lia]. }
  rewrite Hfirst. cbn [fst snd length].
  replace (length jobs) with
    (length (map (fun j : Task * Z => {| task := fst j; enqueuedAt := snd j |}) jobs))
    at 1 2 by apply length_map.
  rewrite settle_drain by exact Hone. cbn [fst snd getStatus queue activeCount length].
  split; [| reflexivity].
  unfold dispatchedOf. rewrite flat_map_app. cbn [flat_map app].
  fold (dispatchedOf (map (fun j : Task * Z => Pushed (fst j)) jobs)).
  rewrite dispatchedOf_pushed. cbn [app].
  fold (dispatchedOf
          (map (fun x : QueuedTask Task => Promoted (task x))
             (map (fun j : Task * Z => {| task := fst j; enqueuedAt := snd j |}) jobs))).
  rewrite dispatchedOf_promoted, map_map. cbn [task]. reflexivity.
Qed.

(** C1. Dispatch is first in, first out.  In every run of a queue, whatever
    its configuration and however enqueues and completions interleave, the
    tasks [processNext] has promoted, followed by those still pending, are
    the tasks [enqueue] appended, in the order it appended them; and the tasks
    whose work function has been invoked, followed by those pending, are the
    accepted tasks in the order they were enqueued.  In particular, with
    [maxConcurrent = 1] and room in the queue, [N >= 1] tasks enqueued in
    order and left to complete are dispatched in that order. *)
Theorem dispatch_is_fifo (cfg : QueueConfig) :
  (forall cs,
     promotedOf (fst (run cs (create cfg)))
       ++ pendingTasks (snd (run cs (create cfg))) =
     pushedOf (fst (run cs (create cfg)))
     /\ dispatchedOf (fst (run cs (create cfg)))
          ++ pendingTasks (snd (run cs (create cfg))) =
        acceptedOf (fst (run cs (create cfg))))
  /\ (maxConcurrent cfg = 1 ->
      forall jobs : list (Task * Z),
        (1 <= length jobs)%nat ->
        1 <= maxQueueSize cfg ->
        Z.of_nat (length jobs) - 1 <= maxQueueSize cfg ->
        dispatchedOf
          (fst (run (enqueueAll jobs ++ repeat Settle (length jobs)) (create cfg))) =
        map fst jobs
        /\ getStatus
             (snd (run (enqueueAll jobs ++ repeat Settle (length jobs))
                     (create cfg))) =
           {| pending := 0; active := 0 |}).
Proof.
  split.
  - intros cs. split.
    + apply (run_pending cs (create cfg)).
    + apply (run_dispatch cs (create cfg)). now left.
  - intros Hone jobs. now apply single_slot_run.
Qed.

(** C2. In every state a queue with [maxQueueSize >= 0] can reach, [enqueue]
    throws [QueueFullError] exactly when the pending count equals
    [maxQueueSize], and it then leaves the state as it was; a queue
    configured with 2 slots and room for 3 takes five enqueues of tasks that
    do not complete (2 running, 3 pending) and refuses the sixth. *)
Theorem enqueue_full_iff (cfg : QueueConfig) (cs : list (Call Task))
    (t : Task) (now : Z) :
  0 <= maxQueueSize cfg ->
  (fst (enqueue t now (snd (run cs (create cfg)))) = Refused t <->
   Z.of_nat (length (queue (snd (run cs (create cfg))))) = maxQueueSize cfg)
  /\ (fst (enqueue t now (snd (run cs (create cfg)))) = Refused t ->
      snd (enqueue t now (snd (run cs (create cfg)))) = snd (run cs (create cfg)))
  /\ (forall (t1 t2 t3 t4 t5 t6 : Task) (n1 n2 n3 n4 n5 n6 : Z),
        run [Enqueue t1 n1; Enqueue t2 n2; Enqueue t3 n3;
             Enqueue t4 n4; Enqueue t5 n5; Enqueue t6 n6]
            (create {| maxConcurrent := 2; maxQueueSize := 3 |}) =
        ([RunNow t1; RunNow t2; Pushed t3; Pushed t4; Pushed t5; Refused t6],
         {| queue := [ {| task := t3; enqueuedAt := n3 |};
                       {| task := t4; enqueuedAt := n4 |};
                       {| task := t5; enqueuedAt := n5 |} ];
            activeCount := 2;
            config := {| maxConcurrent := 2; maxQueueSize := 3 |} |})).
Proof.
  intros Hsize.
  pose proof (run_bound cs (create cfg) Hsize) as Hbound.
  destruct (run_pending cs (create cfg)) as [Hcfg _].
  set (this := snd (run cs (create cfg))) in *.
  cbn [create config] in Hcfg. rewrite Hcfg in Hbound.
  split; [| split].
  - destruct (enqueue_cases t now this)
      as [(Hfull & ->) | [(Hroom & _ & ->) | (Hroom & _ & ->)]];
      rewrite Hcfg in *; cbn [fst]; split; intros H;
      try reflexivity; try discriminate; lia.
  - destruct (enqueue_cases t now this)
      as [(_ & ->) | [(_ & _ & ->) | (_ & _ & ->)]];
      cbn [fst snd]; intros H; [reflexivity | discriminate | discriminate].
  - intros. reflexivity.
Qed.

End Tasks.

Lemma dispatch_is_fifo_witness :
  dispatchedOf
    (fst (run (enqueueAll [(7%nat, 0); (8%nat, 1); (9%nat, 2)] ++ repeat Settle 3)
            (create {| maxConcurrent := 1; maxQueueSize := 100 |}))) =
  [7%nat; 8%nat; 9%nat].
Proof.
  apply (proj2 (dispatch_is_fifo {| maxConcurrent := 1; maxQueueSize := 100 |})
           eq_refl [(7%nat, 0); (8%nat, 1); (9%nat, 2)]);
    cbn; lia.
Defined.

Lemma enqueue_full_iff_witness :
  fst (enqueue 4%nat 0
         (snd (run (enqueueAll [(1%nat, 0); (2%nat, 0); (3%nat, 0)])
                 (create {| maxConcurrent := 1; maxQueueSize := 2 |})))) =
  Refused 4%nat.
Proof.
  apply (proj1 (enqueue_full_iff {| maxConcurrent := 1; maxQueueSize := 2 |}
                  (enqueueAll [(1%nat, 0); (2%nat, 0); (3%nat, 0)]) 4%nat 0
                  ltac:(cbn; lia))).
  reflexivity.
Defined.

End QueueFacts.

(* ===================================================================== *)
(** * Properties of parseClientToken *)
(* ===================================================================== *)

Module ClientTokenFacts.
Import ClientToken.

Section Builtins.

Variable atob : string -> option string.
Variable JSON_parse : string -> option json.

Lemma parseClientToken_returns (token : value) :
  exists payload, parseClientToken atob JSON_parse token = Done payload.
Proof.
  unfold parseClientToken, tryCatch.
  destruct (parseClientToken_try atob JSON_parse token); eauto.
Qed.

Lemma parseClientToken_not_string (token : value) :
  is_string token = false ->
  parseClientToken atob JSON_parse token = Done emptyPayload.
Proof.
  intros Hs. unfold parseClientToken, parseClientToken_try.
  rewrite Hs, orb_true_r. reflexivity.
Qed.

Lemma parseClientToken_parts (tok : string) :
  length (split_dot tok) <> 3%nat ->
  parseClientToken atob JSON_parse (Json (JString tok)) = Done emptyPayload.
Proof.
  intros Hparts. unfold parseClientToken, parseClientToken_try.
  destruct (negb (truthy (Json (JString tok))) || negb (is_string (Json (JString tok))));
    [reflexivity |].
  destruct (split_dot tok) as [| h [| p [| sg [| extra rest]]]];
    cbn in Hparts; try reflexivity.
  congruence.
Qed.

Lemma parseClientToken_undecodable (tok h p sg : string) :
  split_dot tok = [h; p; sg] ->
  decodePayload atob JSON_parse p = Raise ->
  parseClientToken atob JSON_parse (Json (JString tok)) = Done emptyPayload.
Proof.
  intros Hsplit Hdecode. unfold parseClientToken, parseClientToken_try.
  destruct (negb (truthy (Json (JString tok))) || negb (is_string (Json (JString tok))));
    [reflexivity |].
  rewrite Hsplit, Hdecode. reflexivity.
Qed.

(** C10. [parseClientToken] returns a payload for every input and never
    throws; for [null], [undefined], any value that is not a string, the
    empty string, a string that does not split into exactly three
    dot-separated parts, and a string whose payload part [atob] or
    [JSON.parse] rejects, the payload is [{ userId: "", clientId: "" }]. *)
Theorem parseClientToken_total (token : value) :
  (exists payload, parseClientToken atob JSON_parse token = Done payload)
  /\ (malformed atob JSON_parse token ->
      parseClientToken atob JSON_parse token = Done emptyPayload)
  /\ parseClientToken atob JSON_parse (Json JNull) = Done emptyPayload
  /\ parseClientToken atob JSON_parse Undefined = Done emptyPayload
  /\ parseClientToken atob JSON_parse (Json (JString "")) = Done emptyPayload.
Proof.
  split; [apply parseClientToken_returns |].
  split; [| repeat split; reflexivity].
  destruct token as [| [| b | n | tok | items | fields] |]; cbn [malformed];
    try (intros _; apply parseClientToken_not_string; reflexivity).
  intros [-> | [Hparts | (h & p & sg & Hsplit & Hdecode)]].
  - reflexivity.
  - now apply parseClientToken_parts.
  - now apply (parseClientToken_undecodable tok h p sg).
Qed.

End Builtins.

Lemma parseClientToken_total_witness :
  parseClientToken (fun _ => None) (fun _ => None) (Json (JString "not.a.valid.jwt.token"))
  = Done emptyPayload
  /\ parseClientToken (fun _ => None) (fun _ => None) (Json (JString "aaa.bbb.ccc"))
     = Done emptyPayload.
Proof.
  split.
  - apply (proj1 (proj2 (parseClientToken_total (fun _ => None) (fun _ => None)
                           (Json (JString "not.a.valid.jwt.token"))))).
    cbn. right. left. vm_compute. discriminate.
  - apply (proj1 (proj2 (parseClientToken_total (fun _ => None) (fun _ => None)
                           (Json (JString "aaa.bbb.ccc"))))).
    cbn. right. right. exists "aaa"%string, "bbb"%string, "ccc"%string.
    split; reflexivity.
Defined.

End ClientTokenFacts.

(* ===================================================================== *)
(** * Further properties of retry.ts *)
(* ===================================================================== *)

Module RetryMore.
Import Retry EffFacts SessionSchedule.

Lemma safeAttempt_mono (a b : Q) : (a <= b)%Q -> safeAttempt a <= safeAttempt b.
Proof.
  intros Hab. unfold safeAttempt.
  pose proof (Qfloor_resp_le a b Hab). lia.
Qed.

Lemma safeAttempt_nonneg (a : Q) : 0 <= safeAttempt a.
Proof. unfold safeAttempt. lia. Qed.

(** X1. The backoff delay never decreases from one attempt to a later one, for
    any positive base delay and any cap. *)
Theorem calculateBackoff_monotone (a b : Q) (baseDelay maxDelay : Z) :
  0 < baseDelay -> (a <= b)%Q ->
  calculateBackoff a baseDelay maxDelay <= calculateBackoff b baseDelay maxDelay.
Proof.
  intros Hbase Hab. unfold calculateBackoff. cbv zeta.
  pose proof (safeAttempt_mono a b Hab) as Hm.
  pose proof (safeAttempt_nonneg a) as Ha.
  assert (Hpow : 2 ^ safeAttempt a <= 2 ^ safeAttempt b)
    by (apply Z.pow_le_mono_r; lia).
  assert (Hmul : baseDelay * 2 ^ safeAttempt a <= baseDelay * 2 ^ safeAttempt b)
    by (apply Z.mul_le_mono_nonneg_l; [lia | assumption]).
  lia.
Qed.

Lemma calculateBackoff_monotone_witness :
  calculateBackoff (1 # 2) 1000 10000 <= calculateBackoff (7 # 2) 1000 10000.
Proof.
  apply (calculateBackoff_monotone (1 # 2) (7 # 2) 1000 10000);
    [lia | discriminate].
Defined.

(** X2. With [0 < baseDelay <= maxDelay] every delay lies between the base
    delay and the cap, whatever the attempt (negative and fractional ones
    included). *)
Theorem calculateBackoff_range (a : Q) (baseDelay maxDelay : Z) :
  0 < baseDelay <= maxDelay ->
  baseDelay <= calculateBackoff a baseDelay maxDelay <= maxDelay.
Proof.
  intros [Hbase Hcap]. unfold calculateBackoff. cbv zeta.
  pose proof (safeAttempt_nonneg a) as Ha.
  assert (Hpow : 1 <= 2 ^ safeAttempt a).
  { change 1 with (2 ^ 0). apply Z.pow_le_mono_r; lia. }
  assert (Hmul : baseDelay * 1 <= baseDelay * 2 ^ safeAttempt a)
    by (apply Z.mul_le_mono_nonneg_l; [lia | assumption]).
  lia.
Qed.

Lemma calculateBackoff_range_witness :
  1000 <= calculateBackoff (-7 # 3) 1000 10000 <= 10000.
Proof. apply (calculateBackoff_range (-7 # 3) 1000 10000). lia. Defined.

Lemma shouldRetry_true_budget (st a mr : Z) :
  shouldRetry st a mr = true -> a < mr.
Proof.
  unfold shouldRetry. destruct (Z.geb_spec a mr); [discriminate | lia].
Qed.

Lemma shouldRetry_false_transient (st a mr : Z) :
  transientStatus st -> shouldRetry st a mr = false -> mr <= a.
Proof.
  unfold shouldRetry, transientStatus. intros Ht.
  destruct (Z.geb_spec a mr); [lia |]. intros Hf. exfalso.
  destruct (Z.eqb_spec st 0); [discriminate |].
  destruct (Z.geb_spec st 500); destruct (Z.ltb_spec st 600);
    cbn in Hf; try discriminate; lia.
Qed.

Lemma shouldRetry_steady (st a mr : Z) :
  ~ transientStatus st -> shouldRetry st a mr = false.
Proof.
  unfold shouldRetry, transientStatus. intros Ht.
  destruct (Z.geb_spec a mr); [reflexivity |].
  destruct (Z.eqb_spec st 0); [lia |].
  destruct (Z.geb_spec st 500); destruct (Z.ltb_spec st 600);
    cbn; try reflexivity; lia.
Qed.

Lemma settled_not_transient (r : Response) :
  ok r || (status r >=? 400) && (status r <? 500) = true ->
  ~ transientStatus (status r).
Proof.
  unfold ok, transientStatus. intros H Ht.
  destruct (Z.leb_spec 200 (status r)); destruct (Z.leb_spec (status r) 299);
    destruct (Z.geb_spec (status r) 400); destruct (Z.ltb_spec (status r) 500);
    cbn in H; try discriminate; lia.
Qed.

(** The world in which an iteration of [fetchWithRetry] ends. *)
Lemma attemptOnce_eq (maxRetries baseDelay maxDelay a : Z)
    (lastError : option Error) (lastStatus : Z) (w : World) :
  attemptOnce maxRetries baseDelay maxDelay a (lastError, lastStatus) w =
  (match upstream w (calls w) with
   | Resolves r =>
       if ok r || (status r >=? 400) && (status r <? 500)
       then Returned (inl r)
       else if negb (shouldRetry (status r) a maxRetries)
       then Returned (inl r)
       else Returned (inr (lastError, status r))
   | Rejects m =>
       if negb (shouldRetry 0 a maxRetries)
       then Thrown (UpstreamError (a + 1) (NetworkError m))
       else Returned (inr (Some (NetworkError m), 0))
   end,
   after_fetch
     (if a >? 0
      then record_event
             (EvSleep (calculateBackoff (inject_Z (a - 1)) baseDelay maxDelay)) w
      else w)).
Proof.
  cbv [attemptOnce try_catch bind sleep ret throw fetch].
  destruct (a >? 0); cbv beta iota; cbn [record_event upstream calls];
    destruct (upstream w (calls w)) as [r | m]; cbv beta iota.
  - destruct (ok r || (status r >=? 400) && (status r <? 500));
      [| destruct (negb (shouldRetry (status r) a maxRetries))]; reflexivity.
  - destruct (negb (shouldRetry 0 a maxRetries)); reflexivity.
  - destruct (ok r || (status r >=? 400) && (status r <? 500));
      [| destruct (negb (shouldRetry (status r) a maxRetries))]; reflexivity.
  - destruct (negb (shouldRetry 0 a maxRetries)); reflexivity.
Qed.

Section Run.

Variables maxRetries baseDelay maxDelay : Z.

Local Abbreviation once := (attemptOnce maxRetries baseDelay maxDelay).
Local Abbreviation guard := (fun attempt : Z => attempt <=? maxRetries).

Lemma once_world (a : Z) (s : Locals) (w : World) :
  upstream (snd (once a s w)) = upstream w
  /\ clock (snd (once a s w)) = clock w
  /\ calls (snd (once a s w)) = S (calls w)
  /\ ticks (snd (once a s w)) = ticks w
  /\ cachedSession (snd (once a s w)) = cachedSession w.
Proof.
  destruct s as [lastError lastStatus]. rewrite attemptOnce_eq.
  destruct (a >? 0); cbn; repeat split; reflexivity.
Qed.

(** How the loop ends when started at attempt [n <= maxRetries]. *)
Lemma forLoop_outcome (fuel : nat) :
  forall (n : nat) (s : Locals) (w : World),
    Z.of_nat n <= maxRetries ->
    (Z.to_nat (maxRetries + 1) <= fuel + n)%nat ->
    upstream (snd (forLoop fuel guard once (Z.of_nat n) s w)) = upstream w
    /\ (calls w < calls (snd (forLoop fuel guard once (Z.of_nat n) s w)))%nat
    /\ ((exists r,
           fst (forLoop fuel guard once (Z.of_nat n) s w) = Returned (inl r)
           /\ upstream w (pred (calls (snd (forLoop fuel guard once (Z.of_nat n) s w))))
              = Resolves r
           /\ (transientStatus (status r) ->
               Z.of_nat (calls (snd (forLoop fuel guard once (Z.of_nat n) s w))) =
               Z.of_nat (calls w) + (maxRetries + 1 - Z.of_nat n)))
        \/ (exists msg,
              fst (forLoop fuel guard once (Z.of_nat n) s w) =
              Thrown (UpstreamError (maxRetries + 1) (NetworkError msg))
              /\ upstream w (pred (calls (snd (forLoop fuel guard once (Z.of_nat n) s w))))
                 = Rejects msg
              /\ Z.of_nat (calls (snd (forLoop fuel guard once (Z.of_nat n) s w))) =
                 Z.of_nat (calls w) + (maxRetries + 1 - Z.of_nat n))).
Proof.
  induction fuel as [| fuel IH]; intros n s w Hn Hfuel; [lia |].
  cbn [forLoop].
  destruct (Z.leb_spec (Z.of_nat n) maxRetries) as [_ | Hgt]; [| lia].
  destruct (once_world (Z.of_nat n) s w) as (Hup & _ & Hcalls & _).
  pose proof (attemptOnce_eq maxRetries baseDelay maxDelay (Z.of_nat n)
                (fst s) (snd s) w) as Heq.
  rewrite <- surjective_pairing in Heq.
  destruct (once (Z.of_nat n) s w) as [res w1] eqn:Hrun.
  cbn [fst snd] in Hup, Hcalls.
  injection Heq as Hres _.
  assert (Hgo : forall s',
    res = Returned (inr s') -> Z.of_nat n < maxRetries ->
    upstream (snd (forLoop fuel guard once (Z.of_nat n + 1) s' w1)) = upstream w
    /\ (calls w < calls (snd (forLoop fuel guard once (Z.of_nat n + 1) s' w1)))%nat
    /\ ((exists r,
           fst (forLoop fuel guard once (Z.of_nat n + 1) s' w1) = Returned (inl r)
           /\ upstream w (pred (calls (snd (forLoop fuel guard once (Z.of_nat n + 1) s' w1))))
              = Resolves r
           /\ (transientStatus (status r) ->
               Z.of_nat (calls (snd (forLoop fuel guard once (Z.of_nat n + 1) s' w1))) =
               Z.of_nat (calls w) + (maxRetries + 1 - Z.of_nat n)))
        \/ (exists msg,
              fst (forLoop fuel guard once (Z.of_nat n + 1) s' w1) =
              Thrown (UpstreamError (maxRetries + 1) (NetworkError msg))
              /\ upstream w (pred (calls (snd (forLoop fuel guard once (Z.of_nat n + 1) s' w1))))
                 = Rejects msg
              /\ Z.of_nat (calls (snd (forLoop fuel guard once (Z.of_nat n + 1) s' w1))) =
                 Z.of_nat (calls w) + (maxRetries + 1 - Z.of_nat n)))).
  { intros s' _ Hlt.
    replace (Z.of_nat n + 1) with (Z.of_nat (S n)) by lia.
    destruct (IH (S n) s' w1 ltac:(lia) ltac:(lia)) as (Hup' & Hc' & Hend).
    rewrite Hup in Hup'. rewrite Hup in Hend.
    split; [exact Hup' |]. split; [lia |].
    destruct Hend as [(r & Hr & Hlast & Hcount) | (msg & Hr & Hlast & Hcount)].
    - left. exists r. repeat split; try assumption.
      intros Ht. specialize (Hcount Ht). lia.
    - right. exists msg. repeat split; try assumption. lia. }
  destruct (upstream w (calls w)) as [r | m] eqn:Hanswer.
  - destruct (ok r || (status r >=? 400) && (status r <? 500)) eqn:Hsettled.
    + subst res. rewrite (bind_returned _ _ _ _ _ Hrun). cbn [ret fst snd].
      split; [exact Hup |]. split; [lia |]. left. exists r.
      rewrite Hcalls. cbn [pred]. repeat split; try assumption.
      intros Ht. exfalso. exact (settled_not_transient r Hsettled Ht).
    + destruct (shouldRetry (status r) (Z.of_nat n) maxRetries) eqn:Hretry;
        cbn [negb] in Hres; subst res; rewrite (bind_returned _ _ _ _ _ Hrun).
      * apply (Hgo _ eq_refl). now apply shouldRetry_true_budget in Hretry.
      * cbn [ret fst snd]. split; [exact Hup |]. split; [lia |]. left. exists r.
        rewrite Hcalls. cbn [pred]. repeat split; try assumption.
        intros Ht. pose proof (shouldRetry_false_transient _ _ _ Ht Hretry). lia.
  - destruct (shouldRetry 0 (Z.of_nat n) maxRetries) eqn:Hretry;
      cbn [negb] in Hres; subst res.
    + rewrite (bind_returned _ _ _ _ _ Hrun).
      apply (Hgo _ eq_refl). now apply shouldRetry_true_budget in Hretry.
    + rewrite (bind_thrown _ _ _ _ _ Hrun). cbn [fst snd].
      assert (Hlast : maxRetries <= Z.of_nat n).
      { apply (shouldRetry_false_transient 0); [now left | exact Hretry]. }
      replace (Z.of_nat n + 1) with (maxRetries + 1) by lia.
      split; [exact Hup |]. split; [lia |]. right. exists m.
      rewrite Hcalls. cbn [pred]. repeat split; try assumption. lia.
Qed.

(** After [k] transient failures in a row, an answer that is not transient
    ends the loop. *)
Lemma forLoop_recovers (k : nat) :
  forall (fuel n : nat) (s : Locals) (w : World) (r : Response),
    (k < fuel)%nat ->
    Z.of_nat (n + k) <= maxRetries ->
    (forall i, (i < k)%nat -> failing (upstream w (calls w + i))) ->
    upstream w (calls w + k) = Resolves r ->
    ~ transientStatus (status r) ->
    fst (forLoop fuel guard once (Z.of_nat n) s w) = Returned (inl r)
    /\ calls (snd (forLoop fuel guard once (Z.of_nat n) s w)) = (calls w + S k)%nat
    /\ trace (snd (forLoop fuel guard once (Z.of_nat n) s w)) =
       trace w ++ attemptsTrace baseDelay maxDelay n (S k).
Proof.
  induction k as [| k IH]; intros fuel n s w r Hfuel Hn Hfail Hgood Hsteady;
    (destruct fuel as [| fuel]; [lia |]); cbn [forLoop];
    (destruct (Z.leb_spec (Z.of_nat n) maxRetries) as [_ | Hgt]; [| lia]);
    destruct (RetryLoopFacts.attemptOnce_effect maxRetries baseDelay maxDelay n s w)
      as (_ & Hcalls & Htrace);
    destruct (once_world (Z.of_nat n) s w) as (Hup & _ & _ & _ & _);
    pose proof (attemptOnce_eq maxRetries baseDelay maxDelay (Z.of_nat n)
                  (fst s) (snd s) w) as Heq;
    rewrite <- surjective_pairing in Heq;
    destruct (once (Z.of_nat n) s w) as [res w1] eqn:Hrun;
    cbn [fst snd] in Hup, Hcalls, Htrace; injection Heq as Hres _.
  - rewrite Nat.add_0_r in Hgood. rewrite Hgood in Hres.
    rewrite (shouldRetry_steady _ (Z.of_nat n) maxRetries Hsteady) in Hres.
    cbn [negb] in Hres.
    assert (Hr : res = Returned (inl r))
      by (destruct (ok r || (status r >=? 400) && (status r <? 500)); exact Hres).
    clear Hres. subst res.
    rewrite (bind_returned _ _ _ _ _ Hrun). cbn [ret fst snd].
    rewrite RetryLoopFacts.attemptsTrace_cons.
    cbn [attemptsTrace seq flat_map]. rewrite app_nil_r.
    repeat split; [lia | exact Htrace].
  - assert (Hfirst : failing (upstream w (calls w))).
    { specialize (Hfail 0%nat ltac:(lia)). now rewrite Nat.add_0_r in Hfail. }
    assert (Hnext : exists s', res = Returned (inr s')).
    { destruct (upstream w (calls w)) as [r0 | m]; cbn in Hfirst.
      - rewrite (SessionFacts.failing_not_ok r0 Hfirst) in Hres.
        replace ((status r0 >=? 400) && (status r0 <? 500)) with false in Hres
          by (destruct (Z.ltb_spec (status r0) 500); [lia |];
              now rewrite andb_false_r).
        cbn [orb] in Hres.
        replace (shouldRetry (status r0) (Z.of_nat n) maxRetries) with true in Hres.
        + cbn [negb] in Hres. eauto.
        + unfold shouldRetry.
          destruct (Z.geb_spec (Z.of_nat n) maxRetries); [lia |].
          destruct (Z.geb_spec (status r0) 500); [| lia].
          destruct (Z.ltb_spec (status r0) 600); [| lia].
          now rewrite orb_true_r.
      - replace (shouldRetry 0 (Z.of_nat n) maxRetries) with true in Hres.
        + cbn [negb] in Hres. eauto.
        + unfold shouldRetry.
          destruct (Z.geb_spec (Z.of_nat n) maxRetries); [lia | reflexivity]. }
    destruct Hnext as [s' ->]. rewrite (bind_returned _ _ _ _ _ Hrun).
    replace (Z.of_nat n + 1) with (Z.of_nat (S n)) by lia.
    destruct (IH fuel (S n) s' w1 r) as (Hr & Hc & Ht); try assumption; try lia.
    + intros i Hi. rewrite Hup, Hcalls.
      replace (S (calls w) + i)%nat with (calls w + S i)%nat by lia.
      apply Hfail. lia.
    + rewrite Hup, Hcalls.
      now replace (S (calls w) + k)%nat with (calls w + S k)%nat by lia.
    + split; [exact Hr |]. split; [lia |].
      rewrite Ht, Htrace, RetryLoopFacts.attemptsTrace_cons.
      now rewrite <- app_assoc.
Qed.

End Run.

(** X3. A run of [fetchWithRetry] with [maxRetries >= 0] ends in one of two
    ways.  It returns the response of its last call of [fetch], and a
    response with a transient status (0 or 5xx) only once all [maxRetries +
    1] attempts are used.  Or its last call was rejected, all [maxRetries +
    1] attempts are used, and it throws "Upstream error after [maxRetries +
    1] retries" with the message of that last rejection.  It never throws the
    "HTTP status" error that follows its loop. *)
Theorem fetchWithRetry_outcome (maxRetries baseDelay maxDelay : Z) (w : World) :
  0 <= maxRetries ->
  (exists r,
     fst (fetchWithRetry maxRetries baseDelay maxDelay w) = Returned r
     /\ upstream w (pred (calls (snd (fetchWithRetry maxRetries baseDelay maxDelay w))))
        = Resolves r
     /\ (transientStatus (status r) ->
         calls (snd (fetchWithRetry maxRetries baseDelay maxDelay w)) =
         (calls w + Z.to_nat (maxRetries + 1))%nat))
  \/ (exists msg,
        fst (fetchWithRetry maxRetries baseDelay maxDelay w) =
        Thrown (UpstreamError (maxRetries + 1) (NetworkError msg))
        /\ upstream w (pred (calls (snd (fetchWithRetry maxRetries baseDelay maxDelay w))))
           = Rejects msg
        /\ calls (snd (fetchWithRetry maxRetries baseDelay maxDelay w)) =
           (calls w + Z.to_nat (maxRetries + 1))%nat).
Proof.
  intros Hmr.
  destruct (forLoop_outcome maxRetries baseDelay maxDelay
              (Z.to_nat (maxRetries + 1)) 0%nat (None, 0) w ltac:(cbn; lia) ltac:(lia))
    as (_ & _ & Hend).
  change (Z.of_nat 0) with 0 in Hend.
  unfold fetchWithRetry, bind.
  destruct (forLoop (Z.to_nat (maxRetries + 1)) (fun a => a <=? maxRetries)
              (attemptOnce maxRetries baseDelay maxDelay) 0 (None, 0) w)
    as [res w1].
  cbn [fst snd] in Hend.
  destruct Hend as [(r & -> & Hlast & Hcount) | (msg & -> & Hlast & Hcount)];
    cbn [ret fst snd].
  - left. exists r. repeat split; try assumption.
    intros Ht. specialize (Hcount Ht). lia.
  - right. exists msg. repeat split; try assumption. lia.
Qed.

Lemma fetchWithRetry_outcome_witness :
  fst (fetchWithRetry 3 1000 10000 silentWorld) =
  Thrown (UpstreamError 4 (NetworkError "connection refused"))
  /\ fst (fetchWithRetry 3 1000 10000 Worlds.flakyWorld) = Returned Worlds.okResponse.
Proof.
  split.
  - destruct (fetchWithRetry_outcome 3 1000 10000 silentWorld ltac:(lia))
      as [(r & Hr & _) | (msg & Hr & Hlast & _)].
    + vm_compute in Hr. discriminate Hr.
    + vm_compute in Hlast. injection Hlast as <-. exact Hr.
  - destruct (fetchWithRetry_outcome 3 1000 10000 Worlds.flakyWorld ltac:(lia))
      as [(r & Hr & Hlast & _) | (msg & Hr & _)].
    + vm_compute in Hlast. injection Hlast as <-. exact Hr.
    + vm_compute in Hr. discriminate Hr.
Defined.

(** X4. If the upstream fails transiently (network error or 5xx) [k <=
    maxRetries] times in a row and then gives an answer whose status is
    neither 0 nor 5xx, [fetchWithRetry] returns that answer after exactly [k
    + 1] calls of [fetch], having slept [calculateBackoff 0], ...,
    [calculateBackoff (k - 1)] between them; with [k = 0], a success or a 4xx
    answer is returned at once, without any sleep or retry. *)
Theorem fetchWithRetry_recovers (maxRetries baseDelay maxDelay : Z) (w : World)
    (k : nat) (r : Response) :
  Z.of_nat k <= maxRetries ->
  (forall i, (i < k)%nat -> failing (upstream w (calls w + i))) ->
  upstream w (calls w + k) = Resolves r ->
  ~ transientStatus (status r) ->
  fst (fetchWithRetry maxRetries baseDelay maxDelay w) = Returned r
  /\ calls (snd (fetchWithRetry maxRetries baseDelay maxDelay w)) = (calls w + S k)%nat
  /\ trace (snd (fetchWithRetry maxRetries baseDelay maxDelay w)) =
     trace w ++ attemptsTrace baseDelay maxDelay 0 (S k).
Proof.
  intros Hk Hfail Hgood Hsteady.
  destruct (forLoop_recovers maxRetries baseDelay maxDelay k
              (Z.to_nat (maxRetries + 1)) 0%nat (None, 0) w r)
    as (Hr & Hc & Ht); try assumption; try lia.
  change (Z.of_nat 0) with 0 in *.
  unfold fetchWithRetry, bind.
  destruct (forLoop (Z.to_nat (maxRetries + 1)) (fun a => a <=? maxRetries)
              (attemptOnce maxRetries baseDelay maxDelay) 0 (None, 0) w)
    as [res w1].
  cbn [fst snd] in *. subst res. cbn [ret fst snd].
  repeat split; assumption.
Qed.

Lemma fetchWithRetry_recovers_witness :
  fst (fetchWithRetry 3 1000 10000 Worlds.flakyWorld) = Returned Worlds.okResponse
  /\ calls (snd (fetchWithRetry 3 1000 10000 Worlds.flakyWorld)) = 3%nat
  /\ trace (snd (fetchWithRetry 3 1000 10000 Worlds.flakyWorld)) =
     [EvFetch; EvSleep 1000; EvFetch; EvSleep 2000; EvFetch].
Proof.
  apply (fetchWithRetry_recovers 3 1000 10000 Worlds.flakyWorld 2 Worlds.okResponse).
  - lia.
  - intros i Hi. destruct i as [| [| i]]; [exact I | exact I | lia].
  - reflexivity.
  - unfold transientStatus. cbn. lia.
Defined.

(** [fetchWithRetry] leaves the session cache alone and never reads the
    clock; the upstream and the clock it runs against are unchanged. *)
Theorem fetchWithRetry_frame (maxRetries baseDelay maxDelay : Z) (w : World) :
  cachedSession (snd (fetchWithRetry maxRetries baseDelay maxDelay w)) = cachedSession w
  /\ ticks (snd (fetchWithRetry maxRetries baseDelay maxDelay w)) = ticks w
  /\ upstream (snd (fetchWithRetry maxRetries baseDelay maxDelay w)) = upstream w
  /\ clock (snd (fetchWithRetry maxRetries baseDelay maxDelay w)) = clock w.
Proof.
  pose proof (forLoop_preserves (S := Locals) (R := Response)
                (fun w w' => cachedSession w' = cachedSession w
                             /\ ticks w' = ticks w
                             /\ upstream w' = upstream w
                             /\ clock w' = clock w)
                (fun a => a <=? maxRetries)
                (attemptOnce maxRetries baseDelay maxDelay)) as Hloop.
  unfold fetchWithRetry, bind.
  specialize (Hloop
    (fun _ => conj eq_refl (conj eq_refl (conj eq_refl eq_refl)))).
  specialize (Hloop ltac:(intros w1 w2 w3 (A1 & B1 & C1 & D1) (A2 & B2 & C2 & D2);
                           repeat split; congruence)).
  specialize (Hloop ltac:(intros i s0 w0;
                           destruct (once_world maxRetries baseDelay maxDelay i s0 w0)
                             as (A & B & _ & C & D); repeat split; assumption)).
  specialize (Hloop (Z.to_nat (maxRetries + 1)) 0 (None, 0) w).
  destruct (forLoop (Z.to_nat (maxRetries + 1)) (fun a => a <=? maxRetries)
              (attemptOnce maxRetries baseDelay maxDelay) 0 (None, 0) w)
    as [[[r | [[e |] st]] | e |] w1]; cbn in *; exact Hloop.
Qed.

End RetryMore.

(* ===================================================================== *)
(** * Further properties of the session manager *)
(* ===================================================================== *)

Module SessionMore.
Import EffFacts SessionSchedule.

Lemma session_attemptOnce_eq (a : Z) (lastError : option Error) (w : World) :
  Session.attemptOnce a lastError w =
  match acceptedId (upstream w (calls w)) with
  | Some sid => (Returned (inl sid), after_fetch w)
  | None =>
      (Returned (inr (rejectionOf (upstream w (calls w)))),
       pause a (after_fetch w))
  end.
Proof.
  cbv [Session.attemptOnce try_catch bind Session.requestActiveSession
       fetch ret throw sleep acceptedId activeSessionOf rejectionOf pause].
  destruct (upstream w (calls w)) as [r | m]; cbv beta iota.
  - destruct (negb (ok r)); cbv beta iota.
    + destruct (a <? _); reflexivity.
    + destruct (body r) as [| sessions]; cbv beta iota.
      * destruct (a <? _); reflexivity.
      * destruct (find _ sessions); cbv beta iota; [reflexivity |].
        destruct (a <? _); reflexivity.
  - destruct (a <? _); reflexivity.
Qed.

Lemma rejectionOf_some (o : FetchOutcome) :
  acceptedId o = None -> exists e, rejectionOf o = Some e.
Proof.
  unfold acceptedId, activeSessionOf, rejectionOf.
  destruct o as [r | m]; [| eauto].
  destruct (negb (ok r)); [eauto |].
  destruct (body r) as [| sessions]; [eauto |].
  destruct (find _ sessions); [discriminate | eauto].
Qed.

(** The three iterations of the session fetch, unrolled. *)
Lemma fetchSessionIdFromClerk_unroll (clientToken : string) (w : World) :
  Session.fetchSessionIdFromClerk clientToken w =
  match acceptedId (upstream w (calls w)) with
  | Some sid => (Returned sid, after_fetch w)
  | None =>
      let w1 := pause 0 (after_fetch w) in
      match acceptedId (upstream w (S (calls w))) with
      | Some sid => (Returned sid, after_fetch w1)
      | None =>
          let w2 := pause 1 (after_fetch w1) in
          match acceptedId (upstream w (S (S (calls w)))) with
          | Some sid => (Returned sid, after_fetch w2)
          | None =>
              (match rejectionOf (upstream w (S (S (calls w)))) with
               | Some lastError => Thrown lastError
               | None => Thrown SessionIdError
               end, after_fetch w2)
          end
      end
  end.
Proof.
  unfold Session.fetchSessionIdFromClerk.
  change (Z.to_nat (Session.maxRetries Session.RETRY_CONFIG)) with 3%nat.
  cbn [forLoop]. change (0 <? _) with true. cbv iota.
  unfold bind at 1. unfold bind at 1. rewrite session_attemptOnce_eq.
  destruct (acceptedId (upstream w (calls w))) as [sid |]; [reflexivity |].
  change (0 + 1) with 1. change (1 <? _) with true. cbv iota zeta.
  set (w1 := pause 0 (after_fetch w)).
  unfold bind at 1. rewrite session_attemptOnce_eq.
  change (upstream w1 (calls w1)) with (upstream w (S (calls w))).
  destruct (acceptedId (upstream w (S (calls w)))) as [sid |]; [reflexivity |].
  change (1 + 1) with 2. change (2 <? _) with true. cbv iota.
  set (w2 := pause 1 (after_fetch w1)).
  unfold bind at 1. rewrite session_attemptOnce_eq.
  change (upstream w2 (calls w2)) with (upstream w (S (S (calls w)))).
  destruct (acceptedId (upstream w (S (S (calls w))))) as [sid |] eqn:Hthird;
    [reflexivity |].
  change (2 + 1) with 3. cbn [forLoop]. change (3 <? _) with false. cbv iota.
  change (pause 2 (after_fetch w2)) with (after_fetch w2).
  cbn [ret]. destruct (rejectionOf (upstream w (S (S (calls w))))); reflexivity.
Qed.

(** X5. For any upstream the session fetch ends after 1, 2 or 3 calls of
    [fetch]; its events are the beginning of the schedule fetch, sleep 1000,
    fetch, sleep 2000, fetch, cut after its last fetch (it never sleeps after
    its last attempt); and it throws only after three attempts. *)
Theorem session_fetch_attempts (clientToken : string) (w : World) :
  exists m : nat,
    (1 <= m <= 3)%nat
    /\ calls (snd (Session.fetchSessionIdFromClerk clientToken w)) = (calls w + m)%nat
    /\ trace (snd (Session.fetchSessionIdFromClerk clientToken w)) =
       trace w ++ firstn (2 * m - 1) fullSchedule
    /\ fst (Session.fetchSessionIdFromClerk clientToken w) <> OutOfFuel
    /\ (forall e, fst (Session.fetchSessionIdFromClerk clientToken w) = Thrown e ->
        m = 3%nat).
Proof.
  rewrite fetchSessionIdFromClerk_unroll. unfold pause.
  change (0 <? Session.maxRetries Session.RETRY_CONFIG - 1) with true.
  change (1 <? Session.maxRetries Session.RETRY_CONFIG - 1) with true.
  cbv iota zeta.
  destruct (acceptedId (upstream w (calls w))) as [sid |].
  { exists 1%nat. cbn. repeat split; try (cbn; lia); congruence. }
  destruct (acceptedId (upstream w (S (calls w)))) as [sid |].
  { exists 2%nat. cbn. rewrite <- ?app_assoc.
    repeat split; try (cbn; lia); congruence. }
  destruct (acceptedId (upstream w (S (S (calls w))))) as [sid |].
  { exists 3%nat. cbn. rewrite <- ?app_assoc.
    repeat split; try (cbn; lia); congruence. }
  exists 3%nat. cbn. rewrite <- ?app_assoc.
  destruct (rejectionOf (upstream w (S (S (calls w)))));
    repeat split; try (cbn; lia); congruence.
Qed.

Lemma session_fetch_attempts_witness :
  exists m : nat,
    (1 <= m <= 3)%nat
    /\ calls (snd (Session.fetchSessionIdFromClerk "token" Worlds.flakyWorld)) = (0 + m)%nat
    /\ trace (snd (Session.fetchSessionIdFromClerk "token" Worlds.flakyWorld)) =
       [] ++ firstn (2 * m - 1) fullSchedule
    /\ fst (Session.fetchSessionIdFromClerk "token" Worlds.flakyWorld) <> OutOfFuel
    /\ (forall e, fst (Session.fetchSessionIdFromClerk "token" Worlds.flakyWorld) = Thrown e ->
        m = 3%nat).
Proof. exact (session_fetch_attempts "token" Worlds.flakyWorld). Defined.

(** X6. The session fetch returns the id of the first session whose status is
    "active" in the first answer that is a 2xx response with such a session,
    provided that answer comes within the first three calls; the earlier
    answers may fail in any way. *)
Theorem session_fetch_first_success (clientToken : string) (w : World)
    (k : nat) (sid : string) :
  (k < 3)%nat ->
  (forall i, (i < k)%nat -> acceptedId (upstream w (calls w + i)) = None) ->
  acceptedId (upstream w (calls w + k)) = Some sid ->
  fst (Session.fetchSessionIdFromClerk clientToken w) = Returned sid
  /\ calls (snd (Session.fetchSessionIdFromClerk clientToken w)) = (calls w + S k)%nat.
Proof.
  intros Hk Hfail Hgood. rewrite fetchSessionIdFromClerk_unroll. unfold pause.
  change (0 <? Session.maxRetries Session.RETRY_CONFIG - 1) with true.
  change (1 <? Session.maxRetries Session.RETRY_CONFIG - 1) with true.
  cbv iota zeta.
  destruct k as [| [| [| k]]]; [| | | lia].
  - rewrite Nat.add_0_r in Hgood. rewrite Hgood. cbn. split; [reflexivity | lia].
  - pose proof (Hfail 0%nat ltac:(lia)) as H0. rewrite Nat.add_0_r in H0.
    replace (calls w + 1)%nat with (S (calls w)) in Hgood by lia.
    rewrite H0, Hgood. cbn. split; [reflexivity | lia].
  - pose proof (Hfail 0%nat ltac:(lia)) as H0. rewrite Nat.add_0_r in H0.
    pose proof (Hfail 1%nat ltac:(lia)) as H1.
    replace (calls w + 1)%nat with (S (calls w)) in H1 by lia.
    replace (calls w + 2)%nat with (S (S (calls w))) in Hgood by lia.
    rewrite H0, H1, Hgood. cbn. split; [reflexivity | lia].
Qed.

Lemma session_fetch_first_success_witness :
  fst (Session.fetchSessionIdFromClerk "token" Worlds.flakyWorld) = Returned "sess_live"
  /\ calls (snd (Session.fetchSessionIdFromClerk "token" Worlds.flakyWorld)) = 3%nat.
Proof.
  apply (session_fetch_first_success "token" Worlds.flakyWorld 2 "sess_live").
  - lia.
  - intros i Hi. destruct i as [| [| i]]; [reflexivity | reflexivity | lia].
  - reflexivity.
Defined.

(** X7. When the three attempts all fail, the error the session fetch throws is
    the one of the third attempt; those of the first two are dropped. *)
Theorem session_fetch_last_error (clientToken : string) (w : World) (e : Error) :
  (forall i, (i < 3)%nat -> acceptedId (upstream w (calls w + i)) = None) ->
  rejectionOf (upstream w (calls w + 2)) = Some e ->
  fst (Session.fetchSessionIdFromClerk clientToken w) = Thrown e.
Proof.
  intros Hfail Hlast. rewrite fetchSessionIdFromClerk_unroll. unfold pause.
  change (0 <? Session.maxRetries Session.RETRY_CONFIG - 1) with true.
  change (1 <? Session.maxRetries Session.RETRY_CONFIG - 1) with true.
  cbv iota zeta.
  pose proof (Hfail 0%nat ltac:(lia)) as H0. rewrite Nat.add_0_r in H0.
  pose proof (Hfail 1%nat ltac:(lia)) as H1.
  pose proof (Hfail 2%nat ltac:(lia)) as H2.
  replace (calls w + 1)%nat with (S (calls w)) in H1 by lia.
  replace (calls w + 2)%nat with (S (S (calls w))) in H2, Hlast by lia.
  rewrite H0, H1, H2, Hlast. reflexivity.
Qed.

Lemma session_fetch_last_error_witness :
  fst (Session.fetchSessionIdFromClerk "token" silentWorld) =
  Thrown (NetworkError "connection refused").
Proof.
  apply (session_fetch_last_error "token" silentWorld).
  - intros i Hi. reflexivity.
  - reflexivity.
Defined.

(** For attempts [>= 0] the backoff of session.ts is the one of retry.ts
    under the configuration of session.ts. *)
Theorem session_backoff_agrees (attempt : Z) :
  0 <= attempt ->
  Session.calculateBackoff attempt =
  Retry.calculateBackoff (inject_Z attempt)
    (Session.baseDelayMs Session.RETRY_CONFIG)
    (Session.maxDelayMs Session.RETRY_CONFIG).
Proof.
  intros Ha. unfold Session.calculateBackoff, Retry.calculateBackoff.
  now rewrite (RetryFacts.safeAttempt_inject attempt Ha).
Qed.

Lemma session_backoff_agrees_witness :
  Session.calculateBackoff 5 = Retry.calculateBackoff (inject_Z 5) 1000 10000.
Proof. apply (session_backoff_agrees 5). lia. Defined.

(** The session fetch calls [fetch] at least once, and leaves the clock,
    the number of its readings and the cache as they were. *)
Lemma session_fetch_world (clientToken : string) (w : World) :
  (calls w < calls (snd (Session.fetchSessionIdFromClerk clientToken w)))%nat
  /\ ticks (snd (Session.fetchSessionIdFromClerk clientToken w)) = ticks w
  /\ clock (snd (Session.fetchSessionIdFromClerk clientToken w)) = clock w
  /\ cachedSession (snd (Session.fetchSessionIdFromClerk clientToken w)) =
     cachedSession w.
Proof.
  rewrite fetchSessionIdFromClerk_unroll. unfold pause.
  change (0 <? Session.maxRetries Session.RETRY_CONFIG - 1) with true.
  change (1 <? Session.maxRetries Session.RETRY_CONFIG - 1) with true.
  cbv iota zeta.
  destruct (acceptedId (upstream w (calls w)));
    [cbn; repeat split; lia |].
  destruct (acceptedId (upstream w (S (calls w))));
    [cbn; repeat split; lia |].
  destruct (acceptedId (upstream w (S (S (calls w)))));
    cbn; repeat split; lia.
Qed.

(** X8. While the cached entry has not expired, an unforced [getSessionId]
    returns the cached id without calling [fetch] and without touching the
    cache; it only reads the clock once. *)
Theorem getSessionId_hit (clientToken : string) (w : World) (c : SessionCache) :
  cachedSession w = Some c ->
  clock w (ticks w) < expiresAt c ->
  Session.getSessionId clientToken false w = (Returned (sessionId c), after_tick w)
  /\ calls (snd (Session.getSessionId clientToken false w)) = calls w
  /\ trace (snd (Session.getSessionId clientToken false w)) = trace w
  /\ cachedSession (snd (Session.getSessionId clientToken false w)) = Some c.
Proof.
  intros Hc Hfresh.
  assert (Hrun : Session.getSessionId clientToken false w =
                 (Returned (sessionId c), after_tick w)).
  { cbv [Session.getSessionId Session.cacheLookup bind read_cachedSession
         Date_now ret negb].
    rewrite Hc. cbv beta iota.
    destruct (Z.ltb_spec (clock w (ticks w)) (expiresAt c)); [reflexivity | lia]. }
  rewrite Hrun. cbn. repeat split; try reflexivity. exact Hc.
Qed.

Lemma getSessionId_hit_witness :
  Session.getSessionId "token" false
    (with_cachedSession (Some {| sessionId := "sess_kept"; expiresAt := 5000 |})
       silentWorld) =
  (Returned "sess_kept",
   after_tick
     (with_cachedSession (Some {| sessionId := "sess_kept"; expiresAt := 5000 |})
        silentWorld)).
Proof.
  apply (getSessionId_hit "token"
           (with_cachedSession (Some {| sessionId := "sess_kept"; expiresAt := 5000 |})
              silentWorld)
           {| sessionId := "sess_kept"; expiresAt := 5000 |});
    [reflexivity | vm_compute; reflexivity].
Defined.

(** X9. When [getSessionId] takes the refresh path and the session fetch returns
    an id, [getSessionId] returns that id and the cache holds exactly that id
    with the expiry [t + 300000], [t] being the clock reading taken after the
    fetch; a later unforced call that reads the clock before that expiry
    returns the same id without calling [fetch] again. *)
Theorem getSessionId_refresh_then_hit (clientToken : string)
    (forceRefresh : bool) (w : World) (sid : string) :
  forceRefresh = true \/ cachedSession w = None
  \/ (exists c, cachedSession w = Some c /\ expiresAt c <= clock w (ticks w)) ->
  fst (Session.fetchSessionIdFromClerk clientToken
         (snd (Session.cacheLookup forceRefresh w))) = Returned sid ->
  fst (Session.getSessionId clientToken forceRefresh w) = Returned sid
  /\ cachedSession (snd (Session.getSessionId clientToken forceRefresh w)) =
     Some {| sessionId := sid;
             expiresAt :=
               clock w (pred (ticks (snd (Session.getSessionId clientToken forceRefresh w))))
               + Session.SESSION_CACHE_DURATION_MS |}
  /\ (forall clientToken' : string,
        clock w (ticks (snd (Session.getSessionId clientToken forceRefresh w))) <
        clock w (pred (ticks (snd (Session.getSessionId clientToken forceRefresh w))))
        + Session.SESSION_CACHE_DURATION_MS ->
        fst (Session.getSessionId clientToken' false
               (snd (Session.getSessionId clientToken forceRefresh w))) = Returned sid
        /\ calls (snd (Session.getSessionId clientToken' false
                         (snd (Session.getSessionId clientToken forceRefresh w)))) =
           calls (snd (Session.getSessionId clientToken forceRefresh w))).
Proof.
  intros Hmiss Hfetch.
  pose proof (SessionFacts.cacheLookup_miss forceRefresh w Hmiss) as Hlook.
  assert (Hclock : clock (snd (Session.cacheLookup forceRefresh w)) = clock w).
  { cbv [Session.cacheLookup bind read_cachedSession Date_now ret].
    destruct forceRefresh; cbn; [reflexivity |].
    destruct (cachedSession w); reflexivity. }
  unfold Session.getSessionId.
  destruct (Session.cacheLookup forceRefresh w) as [hit w0] eqn:Hcl.
  cbn [fst snd] in *. subst hit.
  rewrite (bind_returned _ _ _ _ _ Hcl).
  destruct (session_fetch_world clientToken w0) as (_ & _ & Hclock' & _).
  destruct (Session.fetchSessionIdFromClerk clientToken w0) as [r w1] eqn:Hf.
  cbn [fst snd] in *. subst r.
  rewrite (bind_returned _ _ _ _ _ Hf). cbv beta.
  set (entry := {| sessionId := sid;
                   expiresAt := clock w1 (ticks w1) + Session.SESSION_CACHE_DURATION_MS |}).
  set (w2 := with_cachedSession (Some entry) (after_tick w1)).
  change ((now <- Date_now ;;
           write_cachedSession
             (Some {| sessionId := sid;
                      expiresAt := now + Session.SESSION_CACHE_DURATION_MS |}) ;;;
           ret sid) w1) with (Returned sid, w2).
  cbn [fst snd].
  change (ticks w2) with (S (ticks w1)). cbn [pred].
  assert (Hcw : clock w = clock w1) by congruence. rewrite Hcw.
  split; [reflexivity |]. split; [reflexivity |].
  intros clientToken' Hfresh.
  assert (Hrun : Session.getSessionId clientToken' false w2 =
                 (Returned sid, after_tick w2)).
  { cbv [Session.getSessionId Session.cacheLookup bind read_cachedSession
         Date_now ret negb].
    change (cachedSession w2) with (Some entry). cbv beta iota.
    change (clock w2 (ticks w2)) with (clock w1 (S (ticks w1))).
    change (expiresAt entry)
      with (clock w1 (ticks w1) + Session.SESSION_CACHE_DURATION_MS).
    destruct (Z.ltb_spec (clock w1 (S (ticks w1)))
                (clock w1 (ticks w1) + Session.SESSION_CACHE_DURATION_MS));
      [reflexivity | lia]. }
  unfold Session.getSessionId in Hrun. rewrite Hrun. split; reflexivity.
Qed.

Lemma getSessionId_refresh_then_hit_witness :
  fst (Session.getSessionId "token" false Worlds.steadyWorld) = Returned "sess_live"
  /\ cachedSession (snd (Session.getSessionId "token" false Worlds.steadyWorld)) =
     Some {| sessionId := "sess_live"; expiresAt := 300000 |}.
Proof.
  destruct (getSessionId_refresh_then_hit "token" false Worlds.steadyWorld "sess_live")
    as (Hret & Hcache & _).
  - right. left. reflexivity.
  - reflexivity.
  - split; [exact Hret | exact Hcache].
Defined.

(** X10. A forced refresh, and any call on an empty cache (for instance right
    after [clearSessionCache]), goes to the upstream: it calls [fetch] at
    least once, even when the cache held a valid entry. *)
Theorem getSessionId_refresh_fetches (clientToken : string) (w : World) :
  (calls w < calls (snd (Session.getSessionId clientToken true w)))%nat
  /\ (calls w <
      calls (snd (Session.getSessionId clientToken false
                    (snd (Session.clearSessionCache w)))))%nat
  /\ cachedSession (snd (Session.clearSessionCache w)) = None.
Proof.
  assert (Hgo : forall w0 : World,
    (calls w0 <
     calls (snd ((sid <- Session.fetchSessionIdFromClerk clientToken ;;
                  now <- Date_now ;;
                  write_cachedSession
                    (Some {| sessionId := sid;
                             expiresAt := now + Session.SESSION_CACHE_DURATION_MS |}) ;;;
                  ret sid) w0)))%nat).
  { intros w0. destruct (session_fetch_world clientToken w0) as (Hc & _).
    unfold bind at 1.
    destruct (Session.fetchSessionIdFromClerk clientToken w0) as [[sid | e |] w1];
      cbn in *; exact Hc. }
  split; [| split].
  - unfold Session.getSessionId, Session.cacheLookup.
    cbv [read_cachedSession negb]. unfold bind at 1. unfold bind at 1.
    cbv beta iota. cbn [ret]. apply Hgo.
  - unfold Session.getSessionId, Session.cacheLookup, Session.clearSessionCache.
    cbv [read_cachedSession write_cachedSession negb]. cbn [snd].
    unfold bind at 1. unfold bind at 1.
    cbn [cachedSession with_cachedSession]. cbv beta iota. cbn [ret].
    apply (Hgo (with_cachedSession None w)).
  - reflexivity.
Qed.

End SessionMore.

(* ===================================================================== *)
(** * Further properties of the rate limiter *)
(* ===================================================================== *)

Module RateLimitMore.
Import RateLimit RateLimitFacts.

Lemma inWindow_narrow (ws ws' : Z) (l : list RequestRecord) :
  ws <= ws' -> inWindow ws' (inWindow ws l) = inWindow ws' l.
Proof.
  intros Hle. induction l as [| r l IH]; [reflexivity |].
  cbn. destruct (Z.gtb_spec (timestamp r) ws) as [Hin | Hout]; cbn.
  - fold (inWindow ws l). fold (inWindow ws' (inWindow ws l)).
    fold (inWindow ws' l). now rewrite IH.
  - destruct (Z.gtb_spec (timestamp r) ws'); [lia |].
    fold (inWindow ws l). fold (inWindow ws' l). exact IH.
Qed.

Lemma inWindow_length (ws : Z) (l : list RequestRecord) :
  (length (inWindow ws l) <= length l)%nat.
Proof.
  induction l as [| r l IH]; [cbn; lia |].
  cbn. destruct (timestamp r >? ws); cbn; fold (inWindow ws l); lia.
Qed.

Lemma inWindow_in (ws : Z) (l : list RequestRecord) :
  Forall (fun r => ws < timestamp r) (inWindow ws l).
Proof.
  induction l as [| r l IH]; [constructor |].
  cbn. destruct (Z.gtb_spec (timestamp r) ws); [constructor; [lia |] |];
    exact IH.
Qed.

(** What the three readers compute, in terms of the client's entries inside
    the window. *)
Lemma getRequestCount_eq (now : Z) (clientId : string) (this : RateLimiter) :
  enabled (config this) = true ->
  fst (getRequestCount now clientId this) =
  Z.of_nat (length (inWindow (now - windowMs (config this))
                      (default [] (requests this !! clientId)))).
Proof.
  intros Hen. unfold getRequestCount, requests_get. rewrite Hen. reflexivity.
Qed.

Lemma checkLimit_eq (now : Z) (clientId : string) (this : RateLimiter) :
  enabled (config this) = true ->
  fst (checkLimit now clientId this) =
  let clientRequests :=
    inWindow (now - windowMs (config this))
      (default [] (requests this !! clientId)) in
  if Z.of_nat (length clientRequests) >=? maxRequests (config this)
  then {| allowed := false;
          retryAfter :=
            Some (Z.max 1 (ceilSeconds
                    (match clientRequests with
                     | oldestRequest :: _ =>
                         (timestamp oldestRequest + windowMs (config this)) - now
                     | [] => windowMs (config this)
                     end)));
          remaining := 0 |}
  else {| allowed := true; retryAfter := None;
          remaining := Z.max 0 (maxRequests (config this)
                                - Z.of_nat (length clientRequests)) |}.
Proof.
  intros Hen. unfold checkLimit, requests_get. rewrite Hen.
  cbv zeta beta iota. cbn [negb].
  destruct (_ >=? maxRequests (config this)); reflexivity.
Qed.

(** X11. After recording requests at [times], all inside the window that ends at
    [now], for a client whose earlier entries have left that window,
    [getRequestCount] at [now] is the number of recorded requests. *)
Theorem getRequestCount_after_recording (this : RateLimiter) (clientId : string)
    (now : Z) (times : list Z) :
  enabled (config this) = true ->
  Forall (fun r => timestamp r <= now - windowMs (config this))
         (default [] (requests this !! clientId)) ->
  Forall (fun t => now - windowMs (config this) < t <= now) times ->
  fst (getRequestCount now clientId (recordAll times clientId this)) =
  Z.of_nat (length times).
Proof.
  intros Hen Hold Htimes.
  destruct (recordAll_shape this clientId now times Hen Hold Htimes)
    as (Hcfg & old & Hexp & Hshape).
  rewrite getRequestCount_eq by (now rewrite Hcfg).
  rewrite Hcfg, Hshape, inWindow_app, (inWindow_none _ old Hexp). cbn [app].
  rewrite inWindow_all, length_map; [reflexivity |].
  apply Forall_map. eapply Forall_impl; [exact Htimes |]. cbn. intros a Ha. lia.
Qed.

Lemma getRequestCount_after_recording_witness :
  fst (getRequestCount 100500 "c1"
         (recordAll [100000; 100100; 100200; 100300] "c1" limiter3)) = 4.
Proof.
  apply (getRequestCount_after_recording limiter3 "c1" 100500
           [100000; 100100; 100200; 100300] eq_refl
           ltac:(constructor) ltac:(repeat constructor; cbn; lia)).
Defined.

(** X12. Recording a request for one client changes nothing for any other
    client: its stored entries, its [checkLimit] answer and its
    [getRequestCount] are the same at every instant. *)
Theorem recordRequest_other_client (now now' : Z) (c1 c2 : string)
    (this : RateLimiter) :
  c1 <> c2 ->
  requests (snd (recordRequest now c1 this)) !! c2 = requests this !! c2
  /\ fst (checkLimit now' c2 (snd (recordRequest now c1 this))) =
     fst (checkLimit now' c2 this)
  /\ fst (getRequestCount now' c2 (snd (recordRequest now c1 this))) =
     fst (getRequestCount now' c2 this).
Proof.
  intros Hne.
  assert (Hcfg : config (snd (recordRequest now c1 this)) = config this).
  { unfold recordRequest, requests_get, requests_set.
    destruct (negb (enabled (config this))); reflexivity. }
  assert (Hreq : requests (snd (recordRequest now c1 this)) !! c2 =
                 requests this !! c2).
  { unfold recordRequest, requests_get, requests_set.
    destruct (negb (enabled (config this))); [reflexivity |].
    cbn. now rewrite lookup_insert_ne. }
  split; [exact Hreq |].
  destruct (enabled (config this)) eqn:Hen.
  - rewrite !checkLimit_eq, !getRequestCount_eq by (rewrite ?Hcfg; exact Hen).
    rewrite Hcfg, Hreq. split; reflexivity.
  - unfold checkLimit, getRequestCount. rewrite Hcfg, Hen.
    split; reflexivity.
Qed.

Lemma recordRequest_other_client_witness :
  fst (getRequestCount 100500 "c2" (snd (recordRequest 100400 "c1" limiter3))) =
  fst (getRequestCount 100500 "c2" limiter3).
Proof.
  apply (recordRequest_other_client 100400 100500 "c1" "c2" limiter3).
  discriminate.
Defined.

(** X13. A disabled limiter records nothing, whatever is asked of it, admits
    every request with [remaining = maxRequests], and counts 0. *)
Theorem disabled_limiter (this : RateLimiter) (clientId : string) (now : Z)
    (times : list Z) :
  enabled (config this) = false ->
  recordAll times clientId this = this
  /\ fst (checkLimit now clientId (recordAll times clientId this)) =
     {| allowed := true; retryAfter := None;
        remaining := maxRequests (config this) |}
  /\ fst (getRequestCount now clientId (recordAll times clientId this)) = 0.
Proof.
  intros Hoff.
  assert (Hsame : recordAll times clientId this = this).
  { unfold recordAll. induction times as [| t times IH]; [reflexivity |].
    cbn [fold_left]. unfold recordRequest at 2. rewrite Hoff. exact IH. }
  rewrite Hsame. unfold checkLimit, getRequestCount. rewrite Hoff.
  repeat split; reflexivity.
Qed.

Lemma disabled_limiter_witness :
  fst (checkLimit 5 "c1"
         (recordAll [1; 2; 3] "c1"
            {| requests := ∅;
               config := {| enabled := false; windowMs := 60000;
                            maxRequests := 1 |} |})) =
  {| allowed := true; retryAfter := None; remaining := 1 |}.
Proof.
  apply (disabled_limiter
           {| requests := ∅;
              config := {| enabled := false; windowMs := 60000;
                           maxRequests := 1 |} |} "c1" 5 [1; 2; 3] eq_refl).
Defined.

(** X14. On an enabled limiter [checkLimit] and [getRequestCount] agree: the
    request is allowed exactly when the count is below [maxRequests]; an
    allowed answer carries [remaining = maxRequests - count >= 1] and no
    [retryAfter]; a refusal carries [remaining = 0] and a [retryAfter] of at
    least one second. *)
Theorem checkLimit_matches_count (now : Z) (clientId : string)
    (this : RateLimiter) :
  enabled (config this) = true ->
  (allowed (fst (checkLimit now clientId this)) = true <->
   fst (getRequestCount now clientId this) < maxRequests (config this))
  /\ (allowed (fst (checkLimit now clientId this)) = true ->
      remaining (fst (checkLimit now clientId this)) =
      maxRequests (config this) - fst (getRequestCount now clientId this)
      /\ 1 <= remaining (fst (checkLimit now clientId this))
      /\ retryAfter (fst (checkLimit now clientId this)) = None)
  /\ (allowed (fst (checkLimit now clientId this)) = false ->
      remaining (fst (checkLimit now clientId this)) = 0
      /\ exists seconds,
           retryAfter (fst (checkLimit now clientId this)) = Some seconds
           /\ 1 <= seconds).
Proof.
  intros Hen. rewrite (checkLimit_eq now clientId this Hen),
    (getRequestCount_eq now clientId this Hen). cbv zeta.
  destruct (Z.geb_spec
              (Z.of_nat (length (inWindow (now - windowMs (config this))
                                   (default [] (requests this !! clientId)))))
              (maxRequests (config this))) as [Hfull | Hroom]; cbn.
  - split; [split; [discriminate | lia] |].
    split; [discriminate |]. intros _. split; [reflexivity |].
    eexists. split; [reflexivity | lia].
  - split; [split; [lia | reflexivity] |].
    split; [| discriminate]. intros _. repeat split; lia.
Qed.

Lemma checkLimit_matches_count_witness :
  remaining (fst (checkLimit 100500 "c1" (recordAll [100000; 100100] "c1" limiter3))) =
  3 - fst (getRequestCount 100500 "c1" (recordAll [100000; 100100] "c1" limiter3)).
Proof.
  apply (proj1 (proj2 (checkLimit_matches_count 100500 "c1"
                         (recordAll [100000; 100100] "c1" limiter3) eq_refl))).
  reflexivity.
Defined.

(** X15. The [retryAfter] of a refusal is long enough: when a client is exactly
    at its quota ([maxRequests >= 1] requests in the window) and records
    nothing more, [checkLimit] allows it again [retryAfter] seconds later. *)
Theorem retryAfter_suffices (now : Z) (clientId : string) (this : RateLimiter)
    (seconds : Z) :
  enabled (config this) = true ->
  1 <= maxRequests (config this) ->
  fst (getRequestCount now clientId this) = maxRequests (config this) ->
  retryAfter (fst (checkLimit now clientId this)) = Some seconds ->
  allowed (fst (checkLimit (now + 1000 * seconds) clientId this)) = true.
Proof.
  intros Hen Hmax Hcount Hretry.
  rewrite (getRequestCount_eq now clientId this Hen) in Hcount.
  rewrite (checkLimit_eq now clientId this Hen) in Hretry.
  rewrite (checkLimit_eq (now + 1000 * seconds) clientId this Hen).
  cbv zeta in *.
  set (l := default [] (requests this !! clientId)) in *.
  set (W := windowMs (config this)) in *.
  destruct (inWindow (now - W) l) as [| h tl] eqn:Hwin;
    [cbn in Hcount; lia |].
  destruct (Z.geb_spec (Z.of_nat (length (h :: tl))) (maxRequests (config this)));
    [| lia].
  cbn [retryAfter] in Hretry. injection Hretry as Hsec.
  pose proof (ceilSeconds_spec (timestamp h + W - now)) as Hceil.
  assert (Hlate : now - W <= now + 1000 * seconds - W) by lia.
  rewrite <- (inWindow_narrow _ _ l Hlate), Hwin.
  cbn [inWindow List.filter].
  destruct (Z.gtb_spec (timestamp h) (now + 1000 * seconds - W)); [lia |].
  pose proof (inWindow_length (now + 1000 * seconds - W) tl) as Hlen.
  unfold inWindow in Hlen. cbn [length] in Hcount.
  destruct (Z.geb_spec
              (Z.of_nat (length (List.filter
                                   (fun r => timestamp r >? now + 1000 * seconds - W) tl)))
              (maxRequests (config this))); [lia | reflexivity].
Qed.

Lemma retryAfter_suffices_witness :
  allowed (fst (checkLimit (100500 + 1000 * 60) "c1"
                  (recordAll [100000; 100100; 100200] "c1" limiter3))) = true.
Proof.
  apply (retryAfter_suffices 100500 "c1"
           (recordAll [100000; 100100; 100200] "c1" limiter3) 60);
    [reflexivity | cbn; lia | reflexivity | reflexivity].
Defined.

Lemma cleanup_lookup (now : Z) (clientId : string) (this : RateLimiter) :
  requests (snd (cleanup now this)) !! clientId =
  match requests this !! clientId with
  | Some l =>
      match inWindow (now - windowMs (config this)) l with
      | [] => None
      | validRequests => Some validRequests
      end
  | None => None
  end.
Proof.
  unfold cleanup. cbn [snd requests]. rewrite lookup_omap.
  destruct (requests this !! clientId); reflexivity.
Qed.

(** X16. The periodic [cleanup] does not change any answer: at every instant not
    earlier than the sweep, [checkLimit] and [getRequestCount] answer for
    every client as if the sweep had not run. *)
Theorem cleanup_transparent (now now' : Z) (clientId : string)
    (this : RateLimiter) :
  now <= now' ->
  fst (checkLimit now' clientId (snd (cleanup now this))) =
  fst (checkLimit now' clientId this)
  /\ fst (getRequestCount now' clientId (snd (cleanup now this))) =
     fst (getRequestCount now' clientId this).
Proof.
  intros Hlater.
  assert (Hcfg : config (snd (cleanup now this)) = config this) by reflexivity.
  assert (Hwin :
    inWindow (now' - windowMs (config this))
      (default [] (requests (snd (cleanup now this)) !! clientId)) =
    inWindow (now' - windowMs (config this))
      (default [] (requests this !! clientId))).
  { rewrite cleanup_lookup.
    destruct (requests this !! clientId) as [l |]; [| reflexivity].
    cbn [default from_option]. unfold id.
    rewrite <- (inWindow_narrow (now - windowMs (config this))
                  (now' - windowMs (config this)) l) by lia.
    destruct (inWindow (now - windowMs (config this)) l); reflexivity. }
  destruct (enabled (config this)) eqn:Hen.
  - rewrite !checkLimit_eq, !getRequestCount_eq by (rewrite ?Hcfg; exact Hen).
    rewrite Hcfg, Hwin. split; reflexivity.
  - unfold checkLimit, getRequestCount. rewrite Hcfg, Hen.
    split; reflexivity.
Qed.

Lemma cleanup_transparent_witness :
  fst (checkLimit 160150 "c1"
         (snd (cleanup 160050 (recordAll [100000; 100100; 100200] "c1" limiter3)))) =
  fst (checkLimit 160150 "c1" (recordAll [100000; 100100; 100200] "c1" limiter3)).
Proof.
  apply (cleanup_transparent 160050 160150 "c1"
           (recordAll [100000; 100100; 100200] "c1" limiter3)).
  lia.
Defined.

(** X17. After [cleanup] every client still in the map has at least one entry and
    only entries inside the window, and a client is absent exactly when it
    had no entry inside the window: idle clients are reclaimed. *)
Theorem cleanup_reclaims (now : Z) (clientId : string) (this : RateLimiter) :
  match requests (snd (cleanup now this)) !! clientId with
  | Some l =>
      l <> []
      /\ Forall (fun r => now - windowMs (config this) < timestamp r) l
      /\ l = inWindow (now - windowMs (config this))
               (default [] (requests this !! clientId))
  | None =>
      inWindow (now - windowMs (config this))
        (default [] (requests this !! clientId)) = []
  end.
Proof.
  rewrite cleanup_lookup.
  destruct (requests this !! clientId) as [l |]; [| reflexivity].
  cbn [default from_option]. unfold id.
  pose proof (inWindow_in (now - windowMs (config this)) l) as Hin.
  destruct (inWindow (now - windowMs (config this)) l) as [| r rest];
    [reflexivity |].
  repeat split; [discriminate | exact Hin].
Qed.

(** Once all the entries of a client have left the window, it has its full
    quota again: with [maxRequests >= 1], [checkLimit] allows it with
    [remaining = maxRequests], and its count is 0. *)
Theorem quota_restored (now : Z) (clientId : string) (this : RateLimiter) :
  enabled (config this) = true ->
  1 <= maxRequests (config this) ->
  Forall (fun r => timestamp r <= now - windowMs (config this))
         (default [] (requests this !! clientId)) ->
  fst (checkLimit now clientId this) =
  {| allowed := true; retryAfter := None; remaining := maxRequests (config this) |}
  /\ fst (getRequestCount now clientId this) = 0.
Proof.
  intros Hen Hmax Hexp.
  rewrite (checkLimit_eq now clientId this Hen),
    (getRequestCount_eq now clientId this Hen).
  rewrite (inWindow_none _ _ Hexp). cbv zeta. cbn [length].
  destruct (Z.geb_spec (Z.of_nat 0) (maxRequests (config this))); [lia |].
  split; [| reflexivity]. f_equal. lia.
Qed.

Lemma quota_restored_witness :
  fst (checkLimit 200000 "c1" (recordAll [100000; 100100; 100200] "c1" limiter3)) =
  {| allowed := true; retryAfter := None; remaining := 3 |}.
Proof.
  apply (quota_restored 200000 "c1"
           (recordAll [100000; 100100; 100200] "c1" limiter3)
           eq_refl ltac:(cbn; lia)
           ltac:(vm_compute; repeat constructor; cbn; discriminate)).
Defined.

(** X18. Recording a request that [checkLimit] has just allowed keeps the client
    within its quota: with a positive window, the count at that instant goes
    up by exactly one and stays at most [maxRequests]; and what is stored for
    the client is its entries of the window followed by the new one. *)
Theorem recordRequest_after_allowed (now : Z) (clientId : string)
    (this : RateLimiter) :
  enabled (config this) = true ->
  0 < windowMs (config this) ->
  allowed (fst (checkLimit now clientId this)) = true ->
  fst (getRequestCount now clientId (snd (recordRequest now clientId this))) =
  fst (getRequestCount now clientId this) + 1
  /\ fst (getRequestCount now clientId (snd (recordRequest now clientId this)))
     <= maxRequests (config this)
  /\ requests (snd (recordRequest now clientId this)) !! clientId =
     Some (inWindow (now - windowMs (config this))
             (default [] (requests this !! clientId))
           ++ [{| timestamp := now |}]).
Proof.
  intros Hen Hwin Hallowed.
  assert (Hstored :
    requests (snd (recordRequest now clientId this)) !! clientId =
    Some (inWindow (now - windowMs (config this))
            (default [] (requests this !! clientId))
          ++ [{| timestamp := now |}])).
  { unfold recordRequest, requests_get, requests_set. rewrite Hen.
    cbn [negb snd requests]. apply lookup_insert_eq. }
  assert (Hcfg : config (snd (recordRequest now clientId this)) = config this).
  { unfold recordRequest, requests_get, requests_set. rewrite Hen. reflexivity. }
  rewrite (checkLimit_eq now clientId this Hen) in Hallowed. cbv zeta in Hallowed.
  rewrite getRequestCount_eq by (now rewrite Hcfg).
  rewrite (getRequestCount_eq now clientId this Hen).
  set (l := default [] (requests this !! clientId)) in *.
  rewrite Hcfg, Hstored. cbn [default from_option]. unfold id.
  rewrite inWindow_app, (inWindow_narrow _ _ _ (Z.le_refl _)).
  cbn [inWindow List.filter timestamp].
  destruct (Z.gtb_spec now (now - windowMs (config this))); [| lia].
  rewrite length_app. cbn [length].
  destruct (Z.geb_spec
              (Z.of_nat (length (inWindow (now - windowMs (config this)) l)))
              (maxRequests (config this))); [discriminate |].
  repeat split; lia.
Qed.

Lemma recordRequest_after_allowed_witness :
  fst (getRequestCount 100500 "c1"
         (snd (recordRequest 100500 "c1" (recordAll [100000; 100100] "c1" limiter3)))) =
  fst (getRequestCount 100500 "c1" (recordAll [100000; 100100] "c1" limiter3)) + 1.
Proof.
  apply (recordRequest_after_allowed 100500 "c1"
           (recordAll [100000; 100100] "c1" limiter3));
    [reflexivity | cbn; lia | reflexivity].
Defined.

End RateLimitMore.

(* ===================================================================== *)
(** * Further properties of the request queue *)
(* ===================================================================== *)

Module QueueMore.
Import Queue QueueRuns QueueFacts.

Section Tasks.

Context {Task : Type}.

Implicit Types (this : RequestQueue Task) (c : Call Task) (cs : list (Call Task))
  (ns : list (Notice Task)) (t : Task).

Lemma settlesOf_cons c cs : settlesOf (c :: cs) = settled c + settlesOf cs.
Proof. unfold settlesOf. destruct c; cbn [List.filter length settled]; lia. Qed.

(** One step: the slots in use never exceed [maxConcurrent], and change by
    the number of tasks started minus the completion, if the step is one. *)
Lemma step_active c this :
  (activeCount this <= maxConcurrent (config this) ->
   activeCount (snd (step c this)) <= maxConcurrent (config (snd (step c this))))
  /\ activeCount (snd (step c this)) =
     activeCount this + Z.of_nat (length (dispatchedOf (fst (step c this))))
     - settled c
  /\ Permutation (enqueuedOf [c])
       (acceptedOf (fst (step c this)) ++ refusedOf (fst (step c this))).
Proof.
  destruct c as [t now |]; cbn [step settled enqueuedOf flat_map app].
  - destruct (enqueue_cases t now this)
      as [(_ & ->) | [(_ & Hfree & ->) | (_ & _ & ->)]]; cbn;
      repeat split; try lia; reflexivity.
  - unfold settle.
    destruct (processNext_cases
                {| queue := queue this; activeCount := activeCount this - 1;
                   config := config this |})
      as [(-> & _) | (next & rest & _ & Hfree & ->)]; cbn in *;
      repeat split; try lia; reflexivity.
Qed.

Lemma run_active cs :
  forall this,
    (activeCount this <= maxConcurrent (config this) ->
     activeCount (snd (run cs this)) <= maxConcurrent (config (snd (run cs this))))
    /\ activeCount (snd (run cs this)) =
       activeCount this + Z.of_nat (length (dispatchedOf (fst (run cs this))))
       - settlesOf cs
    /\ Permutation (enqueuedOf cs)
         (acceptedOf (fst (run cs this)) ++ refusedOf (fst (run cs this))).
Proof.
  induction cs as [| c cs IH]; intros this; cbn [run].
  - unfold settlesOf. cbn. repeat split; [tauto | lia | constructor].
  - destruct (step_active c this) as (Hle & Hcount & Hperm).
    destruct (step c this) as [ns this1]. cbn [fst snd] in *.
    destruct (IH this1) as (Hle' & Hcount' & Hperm').
    destruct (run cs this1) as [ns' this2]. cbn [fst snd] in *.
    split; [tauto |]. split.
    + unfold dispatchedOf in *. rewrite flat_map_app, length_app.
      rewrite settlesOf_cons. lia.
    + unfold acceptedOf, refusedOf in *. rewrite !flat_map_app.
      assert (Hsplit : enqueuedOf (c :: cs) = enqueuedOf [c] ++ enqueuedOf cs).
      { change (c :: cs) with ([c] ++ cs). unfold enqueuedOf.
        now rewrite flat_map_app. }
      rewrite Hsplit, Hperm, Hperm'. rewrite <- !app_assoc.
      apply Permutation_app_head. rewrite !app_assoc.
      apply Permutation_app_tail. apply Permutation_app_comm.
Qed.

(** X19. In every run of a queue with [maxConcurrent >= 0] and [maxQueueSize >=
    0], the slots in use never exceed [maxConcurrent] and the pending
    sequence never exceeds [maxQueueSize]. *)
Theorem queue_within_bounds (cfg : QueueConfig) cs :
  0 <= maxConcurrent cfg ->
  0 <= maxQueueSize cfg ->
  active (getStatus (snd (run cs (create cfg)))) <= maxConcurrent cfg
  /\ pending (getStatus (snd (run cs (create cfg)))) <= maxQueueSize cfg.
Proof.
  intros Hslots Hsize.
  destruct (run_pending cs (create cfg)) as [Hcfg _].
  destruct (run_active cs (create cfg)) as (Hle & _).
  pose proof (run_bound cs (create cfg) Hsize) as Hq.
  rewrite Hcfg in *. cbn [create config activeCount getStatus active pending] in *.
  split; [apply Hle; exact Hslots | exact Hq].
Qed.

(** X20. No slot stays idle while a task waits: in every run of a queue with
    [maxConcurrent >= 0], whenever the pending sequence is not empty all
    [maxConcurrent] slots are in use. *)
Theorem no_idle_slot (cfg : QueueConfig) cs :
  0 <= maxConcurrent cfg ->
  queue (snd (run cs (create cfg))) <> [] ->
  activeCount (snd (run cs (create cfg))) = maxConcurrent cfg.
Proof.
  intros Hslots Hwait.
  destruct (run_pending cs (create cfg)) as [Hcfg _].
  destruct (run_active cs (create cfg)) as (Hle & _).
  destruct (run_dispatch cs (create cfg) ltac:(now left)) as [Hsat _].
  unfold saturated in Hsat. rewrite Hcfg in *.
  cbn [create config activeCount] in *.
  destruct Hsat as [Hnil | Hfull]; [contradiction |].
  specialize (Hle Hslots). lia.
Qed.

(** X21. Bookkeeping of a run: the slots in use are the tasks started minus the
    completions, and [pending + active] of [getStatus] is the number of
    accepted tasks minus the completions. *)
Theorem status_accounting (cfg : QueueConfig) cs :
  active (getStatus (snd (run cs (create cfg)))) =
  Z.of_nat (length (dispatchedOf (fst (run cs (create cfg))))) - settlesOf cs
  /\ pending (getStatus (snd (run cs (create cfg))))
     + active (getStatus (snd (run cs (create cfg)))) =
     Z.of_nat (length (acceptedOf (fst (run cs (create cfg))))) - settlesOf cs.
Proof.
  destruct (run_active cs (create cfg)) as (_ & Hcount & _).
  destruct (run_dispatch cs (create cfg) ltac:(now left)) as [_ Hfifo].
  cbn [create pendingTasks queue map app activeCount] in *.
  apply (f_equal (@length Task)) in Hfifo.
  rewrite length_app in Hfifo. unfold pendingTasks in Hfifo.
  rewrite length_map in Hfifo.
  cbn [getStatus active pending]. lia.
Qed.

(** X22. No task is lost or duplicated: the tasks handed to [enqueue] in a run
    are, up to order, those started, those still pending and those refused. *)
Theorem tasks_conserved (cfg : QueueConfig) cs :
  Permutation (enqueuedOf cs)
    (dispatchedOf (fst (run cs (create cfg)))
     ++ pendingTasks (snd (run cs (create cfg)))
     ++ refusedOf (fst (run cs (create cfg)))).
Proof.
  destruct (run_active cs (create cfg)) as (_ & _ & Hperm).
  destruct (run_dispatch cs (create cfg) ltac:(now left)) as [_ Hfifo].
  cbn [create pendingTasks queue map app] in Hfifo.
  rewrite app_assoc. unfold pendingTasks in *. rewrite Hfifo. exact Hperm.
Qed.

(** X23. When every task that was started has completed, a queue with at least
    one slot is empty and idle: [getStatus] is [{pending: 0, active: 0}]. *)
Theorem drained_status (cfg : QueueConfig) cs :
  1 <= maxConcurrent cfg ->
  settlesOf cs = Z.of_nat (length (dispatchedOf (fst (run cs (create cfg))))) ->
  getStatus (snd (run cs (create cfg))) = {| pending := 0; active := 0 |}.
Proof.
  intros Hslots Hall.
  destruct (run_pending cs (create cfg)) as [Hcfg _].
  destruct (run_active cs (create cfg)) as (_ & Hcount & _).
  destruct (run_dispatch cs (create cfg) ltac:(now left)) as [Hsat _].
  unfold saturated in Hsat. rewrite Hcfg in Hsat.
  cbn [create config activeCount] in *.
  assert (Hidle : activeCount (snd (run cs (create cfg))) = 0) by lia.
  destruct Hsat as [Hnil | Hfull]; [| lia].
  unfold getStatus. rewrite Hnil, Hidle. reflexivity.
Qed.

(** X24. [canAccept()] and [hasCapacity()] predict [enqueue]: it throws exactly
    when [canAccept()] is false; otherwise the task runs at once when
    [hasCapacity()] is true and waits when it is false. *)
Theorem enqueue_predicted t (now : Z) this :
  (fst (enqueue t now this) = Refused t <-> canAccept this = false)
  /\ (fst (enqueue t now this) = RunNow t <->
      canAccept this = true /\ hasCapacity this = true)
  /\ (fst (enqueue t now this) = Pushed t <->
      canAccept this = true /\ hasCapacity this = false).
Proof.
  unfold canAccept, hasCapacity.
  destruct (Z.ltb_spec (Z.of_nat (length (queue this))) (maxQueueSize (config this)));
    destruct (Z.ltb_spec (activeCount this) (maxConcurrent (config this)));
    destruct (enqueue_cases t now this)
      as [(H1 & ->) | [(H1 & H2 & ->) | (H1 & H2 & ->)]];
    cbn [fst]; try lia;
    repeat split; intros; try reflexivity; try discriminate;
    try (destruct H3; discriminate); intuition discriminate.
Qed.

(** X25. A queue configured with [maxQueueSize <= 0] refuses every task, even
    when all its slots are free: nothing is ever started or queued. *)
Theorem zero_size_refuses_all (cfg : QueueConfig) cs :
  maxQueueSize cfg <= 0 ->
  acceptedOf (fst (run cs (create cfg))) = []
  /\ dispatchedOf (fst (run cs (create cfg))) = []
  /\ refusedOf (fst (run cs (create cfg))) = enqueuedOf cs.
Proof.
  intros Hzero.
  assert (Hgen : forall this,
    config this = cfg -> queue this = [] ->
    acceptedOf (fst (run cs this)) = []
    /\ dispatchedOf (fst (run cs this)) = []
    /\ refusedOf (fst (run cs this)) = enqueuedOf cs).
  { induction cs as [| c cs IH]; intros this Hcfg Hq; cbn [run].
    - repeat split; reflexivity.
    - assert (Hstep : config (snd (step c this)) = cfg
                      /\ queue (snd (step c this)) = []
                      /\ acceptedOf (fst (step c this)) = []
                      /\ dispatchedOf (fst (step c this)) = []
                      /\ refusedOf (fst (step c this)) = enqueuedOf [c]).
      { destruct c as [t now |]; cbn [step].
        - destruct (enqueue_cases t now this)
            as [(_ & ->) | [(Hroom & _) | (Hroom & _)]];
            rewrite ?Hq, ?Hcfg in *; cbn in *; try lia.
          repeat split; assumption.
        - unfold settle, processNext. rewrite Hq. cbn.
          repeat split; assumption. }
      destruct Hstep as (Hcfg1 & Hq1 & Ha & Hd & Hr).
      destruct (step c this) as [ns this1]. cbn [fst snd] in *.
      destruct (IH this1 Hcfg1 Hq1) as (Ha' & Hd' & Hr').
      destruct (run cs this1) as [ns' this2]. cbn [fst snd] in *.
      assert (Hsplit : enqueuedOf (c :: cs) = enqueuedOf [c] ++ enqueuedOf cs).
      { change (c :: cs) with ([c] ++ cs). unfold enqueuedOf.
        now rewrite flat_map_app. }
      unfold acceptedOf, dispatchedOf, refusedOf in *.
      rewrite !flat_map_app, Ha, Hd, Hr, Ha', Hd', Hr', Hsplit.
      repeat split; reflexivity. }
  apply Hgen; reflexivity.
Qed.

End Tasks.

Lemma enqueue_predicted_witness :
  fst (enqueue 1%nat 0 (create {| maxConcurrent := 5; maxQueueSize := 0 |})) = Refused 1%nat.
Proof.
  apply (proj1 (enqueue_predicted 1%nat 0
                  (create {| maxConcurrent := 5; maxQueueSize := 0 |}))).
  reflexivity.
Defined.

Lemma queue_within_bounds_witness :
  active (getStatus (snd (run (enqueueAll [(1%nat, 0); (2%nat, 0); (3%nat, 0)])
                            (create {| maxConcurrent := 1; maxQueueSize := 1 |})))) <= 1
  /\ pending (getStatus (snd (run (enqueueAll [(1%nat, 0); (2%nat, 0); (3%nat, 0)])
                               (create {| maxConcurrent := 1; maxQueueSize := 1 |})))) <= 1.
Proof.
  apply (queue_within_bounds {| maxConcurrent := 1; maxQueueSize := 1 |}
           (enqueueAll [(1%nat, 0); (2%nat, 0); (3%nat, 0)])); cbn; lia.
Defined.

Lemma no_idle_slot_witness :
  activeCount (snd (run (enqueueAll [(1%nat, 0); (2%nat, 0); (3%nat, 0)])
                      (create {| maxConcurrent := 2; maxQueueSize := 5 |}))) = 2.
Proof.
  apply (no_idle_slot {| maxConcurrent := 2; maxQueueSize := 5 |}
           (enqueueAll [(1%nat, 0); (2%nat, 0); (3%nat, 0)]));
    [cbn; lia | vm_compute; discriminate].
Defined.

Lemma drained_status_witness :
  getStatus (snd (run (enqueueAll [(1%nat, 0); (2%nat, 0); (3%nat, 0)]
                       ++ [Settle; Settle; Settle])
                    (create {| maxConcurrent := 2; maxQueueSize := 5 |}))) =
  {| pending := 0; active := 0 |}.
Proof.
  apply (drained_status {| maxConcurrent := 2; maxQueueSize := 5 |}
           (enqueueAll [(1%nat, 0); (2%nat, 0); (3%nat, 0)] ++ [Settle; Settle; Settle]));
    [cbn; lia | reflexivity].
Defined.

Lemma zero_size_refuses_all_witness :
  refusedOf (fst (run (enqueueAll [(1%nat, 0); (2%nat, 0)])
                    (create {| maxConcurrent := 5; maxQueueSize := 0 |}))) =
  [1%nat; 2%nat].
Proof.
  apply (zero_size_refuses_all {| maxConcurrent := 5; maxQueueSize := 0 |}
           (enqueueAll [(1%nat, 0); (2%nat, 0)])).
  cbn. lia.
Defined.

End QueueMore.

(* ===================================================================== *)
(** * Further properties of parseClientToken *)
(* ===================================================================== *)

Module ClientTokenMore.
Import ClientToken TokenText.

Lemma split_dot_nonempty (s : string) : split_dot s <> [].
Proof.
  destruct s as [| c rest]; cbn; [discriminate |].
  destruct (Ascii.eqb c "."); [discriminate |].
  destruct (split_dot rest); discriminate.
Qed.

(** Splitting on ["."] loses nothing: joining the parts with ["."] gives
    the string back, and there is one part more than there are dots. *)
Theorem split_dot_join (s : string) :
  join_dot (split_dot s) = s
  /\ length (split_dot s) = S (dots s).
Proof.
  induction s as [| c rest [IHjoin IHlen]]; [split; reflexivity |].
  cbn [split_dot dots].
  destruct (Ascii.eqb_spec c "."%char) as [-> | Hc].
  - pose proof (split_dot_nonempty rest) as Hne.
    split.
    + cbn [join_dot]. destruct (split_dot rest) as [| p ps]; [contradiction |].
      cbn [append]. now rewrite IHjoin.
    + cbn [length]. rewrite IHlen. reflexivity.
  - pose proof (split_dot_nonempty rest) as Hne.
    destruct (split_dot rest) as [| p ps]; [contradiction |].
    split.
    + rewrite <- IHjoin. destruct ps as [| q qs]; reflexivity.
    + cbn [length] in *. rewrite IHlen. reflexivity.
Qed.

Section Builtins.

Variable atob : string -> option string.
Variable JSON_parse : string -> option json.

Lemma three_parts_truthy (tok h p sg : string) :
  split_dot tok = [h; p; sg] ->
  negb (truthy (Json (JString tok))) || negb (is_string (Json (JString tok))) = false.
Proof.
  intros Hsplit. destruct tok as [| c rest]; [discriminate Hsplit |].
  reflexivity.
Qed.

(** X26. For a token of three parts whose payload decodes to a JSON object,
    [userId] is the first truthy of the properties [sub] and [user_id], and
    [clientId] the first truthy of [client_id], [azp] and [aud]; each is the
    empty string when none is truthy. *)
Theorem parseClientToken_precedence (tok h p sg : string)
    (fields : list (string * json)) :
  split_dot tok = [h; p; sg] ->
  decodePayload atob JSON_parse p = Done (JObject fields) ->
  parseClientToken atob JSON_parse (Json (JString tok)) =
  Done {| userId :=
            or_else (lookup_field "sub" fields)
              (or_else (lookup_field "user_id" fields) (Json (JString "")));
          clientId :=
            or_else (lookup_field "client_id" fields)
              (or_else (lookup_field "azp" fields)
                 (or_else (lookup_field "aud" fields) (Json (JString "")))) |}.
Proof.
  intros Hsplit Hdecode.
  unfold parseClientToken, parseClientToken_try.
  rewrite (three_parts_truthy tok h p sg Hsplit), Hsplit, Hdecode.
  cbn [andThen get tryCatch]. unfold or_else.
  destruct (truthy (lookup_field "sub" fields)) eqn:Hs;
    destruct (truthy (lookup_field "user_id" fields)) eqn:Hu;
    destruct (truthy (lookup_field "client_id" fields)) eqn:Hc;
    destruct (truthy (lookup_field "azp" fields)) eqn:Hz;
    destruct (truthy (lookup_field "aud" fields)) eqn:Hd;
    repeat (cbn [andThen tryCatch]; rewrite ?Hs, ?Hu, ?Hc, ?Hz, ?Hd);
    reflexivity.
Qed.

(** X27. For a token of three parts whose payload decodes to JSON that is not an
    object: [null], a boolean, a number or an array give the empty payload;
    a JSON string gives a [userId] that is not a string but the function
    [String.prototype.sub], with an empty [clientId]. *)
Theorem parseClientToken_not_object (tok h p sg : string) (payload : json) :
  split_dot tok = [h; p; sg] ->
  decodePayload atob JSON_parse p = Done payload ->
  match payload with
  | JObject _ => True
  | JString _ =>
      parseClientToken atob JSON_parse (Json (JString tok)) =
      Done {| userId := StringPrototypeSub; clientId := Json (JString "") |}
  | JNull | JBool _ | JNumber _ | JArray _ =>
      parseClientToken atob JSON_parse (Json (JString tok)) = Done emptyPayload
  end.
Proof.
  intros Hsplit Hdecode.
  unfold parseClientToken, parseClientToken_try.
  rewrite (three_parts_truthy tok h p sg Hsplit), Hsplit, Hdecode.
  destruct payload; try exact I; reflexivity.
Qed.

End Builtins.

Lemma parseClientToken_precedence_witness :
  parseClientToken
    (fun _ => Some "{}"%string)
    (fun _ => Some (JObject [("azp"%string, JString "client_9");
                             ("user_id"%string, JString "user_7");
                             ("sub"%string, JString "")]))
    (Json (JString "aaa.bbb.ccc")) =
  Done {| userId := Json (JString "user_7"); clientId := Json (JString "client_9") |}.
Proof.
  apply (parseClientToken_precedence
           (fun _ => Some "{}"%string)
           (fun _ => Some (JObject [("azp"%string, JString "client_9");
                                    ("user_id"%string, JString "user_7");
                                    ("sub"%string, JString "")]))
           "aaa.bbb.ccc" "aaa" "bbb" "ccc"
           [("azp"%string, JString "client_9");
            ("user_id"%string, JString "user_7");
            ("sub"%string, JString "")]); reflexivity.
Defined.

Lemma parseClientToken_not_object_witness :
  parseClientToken (fun _ => Some "x"%string) (fun _ => Some (JString "hello"))
    (Json (JString "aaa.bbb.ccc")) =
  Done {| userId := StringPrototypeSub; clientId := Json (JString "") |}.
Proof.
  apply (parseClientToken_not_object
           (fun _ => Some "x"%string) (fun _ => Some (JString "hello"))
           "aaa.bbb.ccc" "aaa" "bbb" "ccc" (JString "hello")); reflexivity.
Defined.

End ClientTokenMore.

(* ===================================================================== *)
(** * Properties of validateApiKey, estimateTokens and validateCanvasId *)
(* ===================================================================== *)

Module AuthFacts.
Import Auth.

(** X28. [validateApiKey] passes exactly when no key is configured ([null] or
    the empty string), or the provided key is the configured one. *)
Theorem validateApiKey_spec (providedKey configuredKey : option string) :
  validateApiKey providedKey configuredKey = true <->
  configuredKey = None \/ configuredKey = Some ""%string
  \/ (exists k, providedKey = Some k /\ configuredKey = Some k).
Proof.
  unfold validateApiKey, missing.
  destruct configuredKey as [c |]; [| intuition].
  destruct (String.eqb_spec c "") as [-> | Hc]; [intuition |].
  destruct providedKey as [p |].
  - destruct (String.eqb_spec p "") as [-> | Hp].
    + split; [discriminate |].
      intros [H | [H | (k & Hk & Hk')]]; try discriminate; congruence.
    + destruct (String.eqb_spec p c) as [-> | Hpc].
      * split; [eauto | reflexivity].
      * split; [discriminate |].
        intros [H | [H | (k & Hk & Hk')]]; try discriminate; congruence.
  - split; [discriminate |].
    intros [H | [H | (k & Hk & Hk')]]; try discriminate; congruence.
Qed.

Lemma validateApiKey_spec_witness :
  validateApiKey (Some "secret"%string) (Some "secret"%string) = true.
Proof.
  apply (proj2 (validateApiKey_spec (Some "secret"%string) (Some "secret"%string))).
  right. right. exists "secret"%string. split; reflexivity.
Defined.

End AuthFacts.

Module LoggingFacts.
Import Logging.

(** X29. [estimateTokens] is the length divided by 4 and rounded up: 0 for what
    is not a string and for the empty string only, and never more for a
    concatenation than for its two halves together. *)
Theorem estimateTokens_spec (a b : CodeUnits) :
  estimateTokens None = 0
  /\ 4 * (estimateTokens (Some a) - 1) < Z.of_nat (length a)
     <= 4 * estimateTokens (Some a)
  /\ (estimateTokens (Some a) = 0 <-> a = [])
  /\ estimateTokens (Some a) <= estimateTokens (Some (a ++ b))
     <= estimateTokens (Some a) + estimateTokens (Some b).
Proof.
  unfold CodeUnits in *.
  assert (Hgen : forall u : list N,
    4 * (estimateTokens (Some u) - 1) < Z.of_nat (length u)
    <= 4 * estimateTokens (Some u)).
  { intros u. unfold estimateTokens.
    destruct (Z.eqb_spec (Z.of_nat (length u)) 0) as [H0 | Hpos]; [lia |].
    pose proof (Z.div_mod (- Z.of_nat (length u)) 4 ltac:(lia)).
    pose proof (Z.mod_pos_bound (- Z.of_nat (length u)) 4 ltac:(lia)).
    lia. }
  split; [reflexivity |]. split; [apply Hgen |]. split.
  - pose proof (Hgen a). destruct a as [| x a]; [split; reflexivity |].
    cbn [length] in *. split; [lia | discriminate].
  - pose proof (Hgen a). pose proof (Hgen b). pose proof (Hgen (a ++ b)) as Hab.
    rewrite length_app in Hab. lia.
Qed.

Lemma estimateTokens_spec_witness :
  estimateTokens (Some [104; 105; 33; 33; 33]%N) = 0 <-> [104; 105; 33; 33; 33]%N = [].
Proof.
  exact (proj1 (proj2 (proj2 (estimateTokens_spec [104; 105; 33; 33; 33]%N [])))).
Defined.

End LoggingFacts.

Module CanvasFacts.
Import Canvas.

Lemma test_length (regex : list (ascii -> bool)) :
  forall s, test regex s = true -> String.length s = length regex.
Proof.
  induction regex as [| class regex IH]; intros [| c rest] H; cbn in *;
    try discriminate; [reflexivity |].
  apply andb_true_iff in H as [_ H]. now rewrite (IH rest H).
Qed.

Lemma test_get (regex : list (ascii -> bool)) :
  forall s (i : nat) (class : ascii -> bool),
    test regex s = true -> nth_error regex i = Some class ->
    exists c, String.get i s = Some c /\ class c = true.
Proof.
  induction regex as [| cl regex IH]; intros [| c rest] i class H Hi; cbn in *;
    try discriminate.
  - destruct i; discriminate.
  - apply andb_true_iff in H as [Hc H].
    destruct i as [| i]; cbn in *.
    + injection Hi as <-. eauto.
    + apply (IH rest i class H Hi).
Qed.

(** X30. [validateCanvasId] accepts only strings of exactly 36 characters with
    hyphens at positions 8, 13, 18 and 23, a version digit [1] to [5] at
    position 14 and a variant digit [8], [9], [a] or [b] (either case) at
    position 19. *)
Theorem validateCanvasId_shape (s : string) :
  validateCanvasId (Some s) = true ->
  String.length s = 36%nat
  /\ String.get 8 s = Some "-"%char /\ String.get 13 s = Some "-"%char
  /\ String.get 18 s = Some "-"%char /\ String.get 23 s = Some "-"%char
  /\ (exists v, String.get 14 s = Some v /\ isVersion v = true)
  /\ (exists v, String.get 19 s = Some v /\ isVariant v = true).
Proof.
  unfold validateCanvasId. destruct (String.eqb s ""); [discriminate |].
  intros Hvalid.
  assert (Hhyphen : forall i, nth_error UUID_REGEX i = Some isHyphen ->
                              String.get i s = Some "-"%char).
  { intros i Hi. destruct (test_get UUID_REGEX s i isHyphen Hvalid Hi) as (c & Hc & Hy).
    unfold isHyphen in Hy. apply Ascii.eqb_eq in Hy. now subst c. }
  split; [exact (test_length UUID_REGEX s Hvalid) |].
  repeat split; try (apply Hhyphen; reflexivity).
  - exact (test_get UUID_REGEX s 14 isVersion Hvalid eq_refl).
  - exact (test_get UUID_REGEX s 19 isVariant Hvalid eq_refl).
Qed.

Lemma validateCanvasId_shape_witness :
  String.length "123e4567-e89b-42d3-A456-426614174000" = 36%nat.
Proof.
  apply (validateCanvasId_shape "123e4567-e89b-42d3-A456-426614174000").
  reflexivity.
Defined.

Lemma class_case (c : ascii) :
  isHex (upperChar c) = isHex c /\ isHex (lowerChar c) = isHex c
  /\ isVersion (upperChar c) = isVersion c /\ isVersion (lowerChar c) = isVersion c
  /\ isVariant (upperChar c) = isVariant c /\ isVariant (lowerChar c) = isVariant c
  /\ isHyphen (upperChar c) = isHyphen c /\ isHyphen (lowerChar c) = isHyphen c.
Proof.
  destruct c as [[] [] [] [] [] [] [] []]; vm_compute; repeat split; reflexivity.
Qed.

Lemma test_case (f : ascii -> ascii) (regex : list (ascii -> bool)) :
  Forall (fun class => forall c, class (f c) = class c) regex ->
  forall s, test regex (mapChars f s) = test regex s.
Proof.
  induction 1 as [| class regex Hclass _ IH]; intros [| c rest]; cbn;
    try reflexivity.
  now rewrite Hclass, IH.
Qed.

(** [validateCanvasId] does not depend on the case of the letters: a
    canvas id is valid exactly when its upper-case and its lower-case forms
    are. *)
Theorem validateCanvasId_case (s : string) :
  validateCanvasId (Some (mapChars upperChar s)) = validateCanvasId (Some s)
  /\ validateCanvasId (Some (mapChars lowerChar s)) = validateCanvasId (Some s).
Proof.
  assert (Hregex : forall f,
    (forall c, isHex (f c) = isHex c) -> (forall c, isVersion (f c) = isVersion c) ->
    (forall c, isVariant (f c) = isVariant c) -> (forall c, isHyphen (f c) = isHyphen c) ->
    Forall (fun class => forall c, class (f c) = class c) UUID_REGEX).
  { intros f H1 H2 H3 H4. unfold UUID_REGEX. cbn [repeat app].
    repeat constructor; assumption. }
  unfold validateCanvasId.
  split; (destruct s as [| c rest]; [reflexivity |]); cbn [mapChars String.eqb].
  - apply (test_case upperChar UUID_REGEX
             (Hregex upperChar
                (fun c0 => proj1 (class_case c0))
                (fun c0 => proj1 (proj2 (proj2 (class_case c0))))
                (fun c0 => proj1 (proj2 (proj2 (proj2 (proj2 (class_case c0))))))
                (fun c0 => proj1 (proj2 (proj2 (proj2 (proj2 (proj2 (proj2 (class_case c0)))))))))
             (String c rest)).
  - apply (test_case lowerChar UUID_REGEX
             (Hregex lowerChar
                (fun c0 => proj1 (proj2 (class_case c0)))
                (fun c0 => proj1 (proj2 (proj2 (proj2 (class_case c0)))))
                (fun c0 => proj1 (proj2 (proj2 (proj2 (proj2 (proj2 (class_case c0)))))))
                (fun c0 => proj2 (proj2 (proj2 (proj2 (proj2 (proj2 (proj2 (class_case c0)))))))))
             (String c rest)).
Qed.

End CanvasFacts.
